(** * hummingbot/remote_iface/mqtt.py: the MQTT control-and-telemetry gateway

    A shallow embedding of the command dispatcher ([MQTTCommands]), the
    event forwarder ([MQTTEventForwarder]) and the log sink
    ([MQTTLogHandler]).  Python exceptions are modelled by an explicit
    result type, the mutable response object and the calls made on the
    application object by explicit state passing. *)

From Stdlib Require Import ZArith QArith Ascii String List Bool Lia.
From stdpp Require Import base strings gmap list.
Import ListNotations.
Local Open Scope string_scope.
Local Open Scope Z_scope.

(** * Python values, exceptions and control flow *)

Module Py.

(** The exception classes the module distinguishes in its [except]
    clauses, and two classes that derive from [BaseException] only. *)
Inductive exn_class : Type :=
| KeyError | TypeError | ValueError | OverflowError | AttributeError | RuntimeError
| EnvironmentError            (* alias of OSError *)
| KeyboardInterrupt | SystemExit.

Record exn : Type := mk_exn { exn_cls : exn_class; exn_str : string }.

(** [isinstance(e, Exception)]: everything but the two classes that sit
    directly under [BaseException]. *)
Definition is_Exception (e : exn) : bool :=
  match exn_cls e with
  | KeyboardInterrupt | SystemExit => false
  | _ => true
  end.

Definition is_KeyError (e : exn) : bool :=
  match exn_cls e with KeyError => true | _ => false end.

(** [isinstance(e, (TypeError, ValueError))] *)
Definition is_TypeError_or_ValueError (e : exn) : bool :=
  match exn_cls e with TypeError | ValueError => true | _ => false end.

Inductive result (A : Type) : Type :=
| Ok (a : A)
| Raise (e : exn).
Arguments Ok {A} a.
Arguments Raise {A} e.

(** Scalar values carried by request fields and event payloads.  A finite
    float is represented by its exact rational value; the floats that are
    not finite are [nan] and the two infinities. *)
Inductive pyval : Type :=
| VNone
| VBool (b : bool)
| VInt (z : Z)
| VFloat (q : Q)
| VNaN
| VInf (negative : bool)
| VStr (s : string).

(** Truncation toward zero, as [int(x)] does on a finite float. *)
Definition Qtrunc (q : Q) : Z := Z.quot (Qnum q) (Zpos (Qden q)).

(** Statements run over a state [S]; an exception leaves the state as it
    was when it was raised, so that a handler sees every earlier
    mutation. *)
Definition M (S A : Type) : Type := S -> result A * S.

Definition ret {S A} (a : A) : M S A := fun s => (Ok a, s).

Definition raise {S A} (e : exn) : M S A := fun s => (Raise e, s).

Definition bind {S A B} (m : M S A) (k : A -> M S B) : M S B :=
  fun s => match m s with
           | (Ok a, s') => k a s'
           | (Raise e, s') => (Raise e, s')
           end.

Definition modify {S} (f : S -> S) : M S unit := fun s => (Ok tt, f s).

Definition gets {S A} (f : S -> A) : M S A := fun s => (Ok (f s), s).

(** [try: body except <filter> as e: handler e] *)
Definition try_except {S A} (body : M S A) (filter : exn -> bool)
    (handler : exn -> M S A) : M S A :=
  fun s => match body s with
           | (Ok a, s') => (Ok a, s')
           | (Raise e, s') => if filter e then handler e s' else (Raise e, s')
           end.

(** [for x in xs: body x] *)
Fixpoint for_each {S A} (xs : list A) (body : A -> M S unit) : M S unit :=
  match xs with
  | [] => ret tt
  | x :: xs' => bind (body x) (fun _ => for_each xs' body)
  end.

(** [if c: body] *)
Definition when {S} (c : bool) (body : M S unit) : M S unit :=
  if c then body else ret tt.

(** [str.replace(old, new)] for a non-empty [old]: every occurrence, left
    to right, without overlap; [skip] counts the characters of a matched
    occurrence still to be dropped. *)
Fixpoint replace_from (old new : string) (skip : nat) (s : string) : string :=
  match s with
  | EmptyString => EmptyString
  | String c s' =>
      match skip with
      | S k => replace_from old new k s'
      | O => if String.prefix old s
             then (new ++ replace_from old new (String.length old - 1) s')%string
             else String c (replace_from old new 0 s')
      end
  end.

Definition replace (s old new : string) : string := replace_from old new 0 s.

End Py.
Export Py.

Declare Scope py_scope.
Delimit Scope py_scope with py.
Notation "x <- m ;; k" := (bind m (fun x => k))
  (at level 100, m at next level, right associativity) : py_scope.
Notation "m ;;; k" := (bind m (fun _ => k))
  (at level 100, right associativity) : py_scope.

(** * hummingbot.remote_iface.messages *)

Module Messages.

(** Modelled from the spec: [MQTT_STATUS_CODE] is declared in
    [hummingbot/remote_iface/messages.py]; every response carries a status
    code, [OK] or [ERROR]. *)
Inductive MQTT_STATUS_CODE : Type := OK | ERROR.

(** Modelled from the spec: the response classes of [messages.py].  Every
    response carries a status code and a message string; [payload] stands
    for the command-specific fields ([changes], [data], [trades]), and is
    [unit] for the commands that have none. *)
Record Response (P : Type) : Type := mk_response {
  status : MQTT_STATUS_CODE;
  msg : string;
  payload : P
}.
Arguments mk_response {P} _ _ _.
Arguments status {P} _.
Arguments msg {P} _.
Arguments payload {P} _.

Definition set_status {P} (c : MQTT_STATUS_CODE) (r : Response P) : Response P :=
  mk_response c (msg r) (payload r).
Definition set_msg {P} (m : string) (r : Response P) : Response P :=
  mk_response (status r) m (payload r).
Definition set_payload {P} (p : P) (r : Response P) : Response P :=
  mk_response (status r) (msg r) p.

(** Modelled from the spec: a freshly constructed response is [OK] with an
    empty message and the payload at its default. *)
Definition new_response {P} (default : P) : Response P := mk_response OK "" default.

Record StartRequest : Type := {
  log_level : option string;
  restore : bool;
  script : option string;
  is_quickstart : bool
}.

Record StopRequest : Type := { skip_order_cancellation : bool }.

Record ConfigRequest : Type := { params : list (string * pyval) }.

Record ImportRequest : Type := { strategy : option string }.

Record HistoryRequest : Type := {
  days : Q;
  verbose : bool;
  precision : option Z
}.

Record BalanceLimitRequest : Type := {
  bl_exchange : string;
  bl_asset : string;
  bl_amount : Q
}.

Record BalancePaperRequest : Type := {
  bp_asset : string;
  bp_amount : Q
}.

(** Event Message: [{timestamp, type, data}]. *)
Record EventMessage : Type := {
  ev_timestamp : Z;
  ev_type : string;
  ev_data : gmap string pyval
}.

(** Log Message: [{timestamp, msg, level_no, level_name, logger_name}]. *)
Record LogMessage : Type := {
  log_timestamp : Q;
  log_msg : string;
  level_no : Z;
  level_name : string;
  logger_name : string
}.

End Messages.
Export Messages.

(** * class MQTTCommands *)

Module MQTTCommands.

Local Open Scope py_scope.

(** A call made on the application object [self._hb_app] (or on an object
    it returned), with the arguments it received. *)
Inductive call : Type :=
| CStart (log_level : option string) (restore : bool)
         (script : option string) (is_quickstart : bool)
| CStop (skip_order_cancellation : bool)
| CConfigInteractive                       (* config() *)
| CConfigurableKeys                        (* configurable_keys() *)
| CConfig (key : string) (value : pyval)   (* config(key, value) *)
| CImportCommand (file_name : string)
| CNotify (text : string)
| CStrategyStatus                          (* run_until_complete(strategy_status()) *)
| CHistory (days : Q) (verbose : bool) (precision : option Z)
| CGetHistoryTrades (days : Q)
| CTradesAll                               (* trades.all() *)
| CBalance (option : string) (args : list pyval).

Inductive outcome : Type :=
| Returned
| Raised (e : exn).

Definition outcome_of {A} (r : result A) : outcome :=
  match r with Ok _ => Returned | Raise e => Raised e end.

(** The calls made so far, oldest first, each with how it ended. *)
Definition trace : Type := list (call * outcome).

(** What [get_history_trades] returns: an object with a truth value, whose
    [all()] method is a further call on the application side. *)
Record TradesQuery : Type := { truthy : bool }.

(** The [str] that [strategy_status] evaluates to, through what the handler
    reads of it: the result of its [strip()] method. *)
Record StatusText : Type := { strip : string }.

(** The application object, an external collaborator: each operation
    returns a result or raises, as a function of its arguments and of the
    calls that preceded it. *)
Record HummingbotApplication : Type := {
  start : trace -> option string -> bool -> option string -> bool -> result unit;
  stop : trace -> bool -> result unit;
  config_interactive : trace -> result unit;
  configurable_keys : trace -> result (list string);
  config : trace -> string -> pyval -> result unit;
  import_command : trace -> string -> result unit;
  notify : trace -> string -> result unit;
  strategy_status : trace -> result StatusText;
  history : trace -> Q -> bool -> option Z -> result unit;
  get_history_trades : trace -> Q -> result TradesQuery;
  trades_all : trace -> result (list pyval);
  balance : trace -> string -> list pyval -> result string
}.

(** The state a handler runs over: its local [response] object and the
    calls made on the application. *)
Record frame (P : Type) : Type := mk_frame {
  response : Response P;
  calls : trace
}.
Arguments mk_frame {P} _ _.
Arguments response {P} _.
Arguments calls {P} _.

(** Perform the call [c], whose result the application computes from the
    calls so far, and record it. *)
Definition invoke {P A} (c : call) (f : trace -> result A) : M (frame P) A :=
  fun st =>
    let r := f (calls st) in
    (r, mk_frame (response st) (calls st ++ [(c, outcome_of r)])%list).

Definition update {P} (f : Response P -> Response P) : M (frame P) unit :=
  modify (fun st => mk_frame (f (response st)) (calls st)).

(** [response = X.Response(); <body>; return response] *)
Definition handler {P} (default : P) (body : M (frame P) unit)
    (tr : trace) : result (Response P) * trace :=
  match body (mk_frame (new_response default) tr) with
  | (Ok _, st) => (Ok (response st), calls st)
  | (Raise e, st) => (Raise e, calls st)
  end.

(** [response.status = MQTT_STATUS_CODE.ERROR; response.msg = str(e)] *)
Definition set_error {P} (e : exn) : M (frame P) unit :=
  update (set_status ERROR) ;;;
  update (set_msg (exn_str e)).

Section Handlers.

Variable _hb_app : HummingbotApplication.

Definition _on_cmd_start (msg : StartRequest) : trace -> result (Response unit) * trace :=
  handler tt
    (try_except
       (invoke (CStart (log_level msg) (restore msg) (script msg) (is_quickstart msg))
               (fun tr => start _hb_app tr (log_level msg) (restore msg)
                                (script msg) (is_quickstart msg)))
       is_Exception
       set_error).

Definition _on_cmd_stop (msg : StopRequest) : trace -> result (Response unit) * trace :=
  handler tt
    (try_except
       (invoke (CStop (skip_order_cancellation msg))
               (fun tr => stop _hb_app tr (skip_order_cancellation msg)))
       is_Exception
       set_error).

(** The body of the loop of [_on_cmd_config], for one [param]. *)
Definition config_step (param : string * pyval)
  : M (frame (list (string * pyval))) unit :=
  keys <- invoke CConfigurableKeys (configurable_keys _hb_app) ;;
  when (bool_decide (fst param ∈ keys))
    (invoke (CConfig (fst param) (snd param))
            (fun tr => config _hb_app tr (fst param) (snd param)) ;;;
     update (fun r => set_payload (payload r ++ [(fst param, snd param)])%list r)).

Definition _on_cmd_config (msg : ConfigRequest)
  : trace -> result (Response (list (string * pyval))) * trace :=
  handler []
    (try_except
       (if (length (params msg) =? 0)%nat then
          invoke CConfigInteractive (config_interactive _hb_app)
        else
          for_each (params msg) config_step)
       is_Exception
       set_error).

Definition _on_cmd_import (msg : ImportRequest) : trace -> result (Response unit) * trace :=
  handler tt
    (let strategy_name := strategy msg in
     match strategy_name with
     | Some name =>
         let strategy_file_name := name ++ ".yml" in
         try_except
           (invoke (CImportCommand strategy_file_name)
                   (fun tr => import_command _hb_app tr strategy_file_name))
           is_Exception
           (fun e =>
              invoke (CNotify (exn_str e))
                     (fun tr => notify _hb_app tr (exn_str e)) ;;;
              set_error e)
     | None => ret tt
     end).

Definition _on_cmd_status (_ : unit) : trace -> result (Response string) * trace :=
  handler ""
    (try_except
       (_status <- invoke CStrategyStatus (strategy_status _hb_app) ;;
        update (set_payload (strip _status)))
       is_Exception
       set_error).

Definition _on_cmd_history (msg : HistoryRequest)
  : trace -> result (Response (list pyval)) * trace :=
  handler []
    (try_except
       (invoke (CHistory (days msg) (verbose msg) (precision msg))
               (fun tr => history _hb_app tr (days msg) (verbose msg) (precision msg)) ;;;
        trades <- invoke (CGetHistoryTrades (days msg))
                         (fun tr => get_history_trades _hb_app tr (days msg)) ;;
        when (truthy trades)
          (all <- invoke CTradesAll (trades_all _hb_app) ;;
           update (set_payload all)))
       is_Exception
       set_error).

Definition _on_cmd_balance_limit (msg : BalanceLimitRequest)
  : trace -> result (Response string) * trace :=
  handler ""
    (try_except
       (let args := [VStr (bl_exchange msg); VStr (bl_asset msg); VFloat (bl_amount msg)] in
        data <- invoke (CBalance "limit" args)
                       (fun tr => balance _hb_app tr "limit" args) ;;
        update (set_payload data))
       is_Exception
       set_error).

Definition _on_cmd_balance_paper (msg : BalancePaperRequest)
  : trace -> result (Response string) * trace :=
  handler ""
    (try_except
       (let args := [VStr (bp_asset msg); VFloat (bp_amount msg)] in
        data <- invoke (CBalance "paper" args)
                       (fun tr => balance _hb_app tr "paper" args) ;;
        update (set_payload data))
       is_Exception
       set_error).

(** The command kinds, one rpc endpoint each. *)
Inductive command : Type :=
| Start | Stop | Config | ImportStrategy | Status | History | BalanceLimit | BalancePaper.

(** The class attributes [START_URI] ... [BALANCE_PAPER_URI]. *)
Definition URI (c : command) : string :=
  match c with
  | Start => "hbot/$UID/start"
  | Stop => "hbot/$UID/stop"
  | Config => "hbot/$UID/config"
  | ImportStrategy => "hbot/$UID/import"
  | Status => "hbot/$UID/status"
  | History => "hbot/$UID/history"
  | BalanceLimit => "hbot/$UID/balance/limit"
  | BalancePaper => "hbot/$UID/balance/paper"
  end.

(** [__init__] and [_init_commands]: the rpc names, with the application's
    identifier substituted, in registration order. *)
Definition _init_commands (uid : string) : list (string * command) :=
  map (fun c => (replace (URI c) "$UID" uid, c))
      [Start; Stop; Config; ImportStrategy; Status; History; BalanceLimit; BalancePaper].

Definition Request (c : command) : Type :=
  match c with
  | Start => StartRequest
  | Stop => StopRequest
  | Config => ConfigRequest
  | ImportStrategy => ImportRequest
  | Status => unit
  | History => HistoryRequest
  | BalanceLimit => BalanceLimitRequest
  | BalancePaper => BalancePaperRequest
  end.

(** The command-specific fields of a response: [changes] for config,
    [data] for status and the two balance commands, [trades] for history. *)
Definition Payload (c : command) : Type :=
  match c with
  | Start | Stop | ImportStrategy => unit
  | Config => list (string * pyval)
  | Status | BalanceLimit | BalancePaper => string
  | History => list pyval
  end.

(** Modelled from the spec: the value a payload field has in a freshly
    constructed response (unset/empty). *)
Definition default_payload (c : command) : Payload c :=
  match c with
  | Start | Stop | ImportStrategy => tt
  | Config => []
  | Status | BalanceLimit | BalancePaper => ""
  | History => []
  end.

(** The [on_request] handler registered for each command. *)
Definition on_request (c : command)
  : Request c -> trace -> result (Response (Payload c)) * trace :=
  match c with
  | Start => _on_cmd_start
  | Stop => _on_cmd_stop
  | Config => _on_cmd_config
  | ImportStrategy => _on_cmd_import
  | Status => _on_cmd_status
  | History => _on_cmd_history
  | BalanceLimit => _on_cmd_balance_limit
  | BalancePaper => _on_cmd_balance_paper
  end.

End Handlers.

(** The calls a handler added to the trace [tr], given the trace after it. *)
Definition new_calls (tr tr' : trace) : trace := drop (length tr) tr'.

(** Every call recorded in [l] returned normally. *)
Definition all_returned (l : trace) : Prop := Forall (fun co => snd co = Returned) l.

(** A concrete application for running the handlers: every operation
    returns a fixed value, unless [fails] names the exception that the
    call raises. *)
Definition answer {A} (fails : trace -> call -> option exn) (tr : trace)
    (c : call) (a : A) : result A :=
  match fails tr c with
  | Some e => Raise e
  | None => Ok a
  end.

Definition scripted (fails : trace -> call -> option exn) (keys : list string)
    (status_text : StatusText) (trades : list pyval) (balance_text : string)
  : HummingbotApplication :=
  {| start := fun tr a b c d => answer fails tr (CStart a b c d) tt;
     stop := fun tr a => answer fails tr (CStop a) tt;
     config_interactive := fun tr => answer fails tr CConfigInteractive tt;
     configurable_keys := fun tr => answer fails tr CConfigurableKeys keys;
     config := fun tr k v => answer fails tr (CConfig k v) tt;
     import_command := fun tr f => answer fails tr (CImportCommand f) tt;
     notify := fun tr t => answer fails tr (CNotify t) tt;
     strategy_status := fun tr => answer fails tr CStrategyStatus status_text;
     history := fun tr d v p => answer fails tr (CHistory d v p) tt;
     get_history_trades := fun tr d =>
       answer fails tr (CGetHistoryTrades d)
              {| truthy := negb (length trades =? 0)%nat |};
     trades_all := fun tr => answer fails tr CTradesAll trades;
     balance := fun tr o a => answer fails tr (CBalance o a) balance_text |}.

(** Nothing fails. *)
Definition app_ok : HummingbotApplication :=
  scripted (fun _ _ => None) ["k1"; "k2"] {| strip := "running" |} [VInt 7] "limit set".

(** Applying a configuration value raises. *)
Definition app_config_fails : HummingbotApplication :=
  scripted (fun _ c => match c with
                       | CConfig _ _ => Some (mk_exn ValueError "bad value")
                       | _ => None
                       end)
           ["k1"; "k2"] {| strip := "" |} [] "".

(** The second configuration value applied raises. *)
Definition app_second_config_fails : HummingbotApplication :=
  scripted (fun tr c => match c with
                        | CConfig _ _ =>
                            if (length tr <? 2)%nat then None
                            else Some (mk_exn ValueError "bad value")
                        | _ => None
                        end)
           ["k1"; "k2"] {| strip := "" |} [] "".

(** Every operation raises an [Exception]. *)
Definition app_down : HummingbotApplication :=
  scripted (fun _ _ => Some (mk_exn RuntimeError "boom")) ["k1"] {| strip := "" |} [VInt 7] "".

(** Every operation but the notification raises an [Exception]. *)
Definition app_down_notify_ok : HummingbotApplication :=
  scripted (fun _ c => match c with
                       | CNotify _ => None
                       | _ => Some (mk_exn RuntimeError "boom")
                       end) ["k1"] {| strip := "" |} [VInt 7] "".

(** The operator interrupts the process while [start] runs. *)
Definition app_interrupted : HummingbotApplication :=
  scripted (fun _ c => match c with
                       | CStart _ _ _ _ => Some (mk_exn KeyboardInterrupt "")
                       | _ => None
                       end) [] {| strip := "" |} [] "".

(** The import fails, and so does the notification about it. *)
Definition app_import_and_notify_fail : HummingbotApplication :=
  scripted (fun _ c => match c with
                       | CImportCommand _ => Some (mk_exn RuntimeError "no such strategy")
                       | CNotify _ => Some (mk_exn RuntimeError "notifier down")
                       | _ => None
                       end) [] {| strip := "" |} [] "".

(** Fetching the trade records fails after the history display succeeded. *)
Definition app_trades_fail : HummingbotApplication :=
  scripted (fun _ c => match c with
                       | CTradesAll => Some (mk_exn RuntimeError "database locked")
                       | _ => None
                       end) [] {| strip := "" |} [VInt 7] "".

Definition start_request : StartRequest :=
  {| log_level := None; restore := false; script := None; is_quickstart := false |}.

Definition history_request : HistoryRequest :=
  {| days := 1; verbose := false; precision := None |}.

End MQTTCommands.

(** * class MQTTEventForwarder *)

Module MQTTEventForwarder.

Local Open Scope py_scope.

(** [threading.current_thread()], compared with [threading.main_thread()]. *)
Inductive thread : Type :=
| MainThread
| WorkerThread (ident : nat).

Definition is_main_thread (t : thread) : bool :=
  match t with MainThread => true | WorkerThread _ => false end.

(** The members of [events.MarketEvent] the forwarder names. *)
Inductive MarketEvent : Type :=
| BuyOrderCreated | BuyOrderCompleted | SellOrderCreated | SellOrderCompleted
| OrderFilled | OrderFailure | OrderCancelled | OrderExpired
| FundingPaymentCompleted
| RangePositionLiquidityAdded | RangePositionLiquidityRemoved
| RangePositionUpdate | RangePositionUpdateFailure
| RangePositionFeeCollected | RangePositionClosed.

(** The event object handed to the forwarder, an arbitrary Python object,
    through what the forwarder observes of it: the two type tests and the
    outcome of each conversion to a mapping.  Mappings are keyed by
    strings, as the [data] field of an Event Message is. *)
Record Payload : Type := {
  is_dataclass : bool;                       (* is_dataclass(event) *)
  asdict : result (gmap string pyval);       (* asdict(event) *)
  is_tuple : bool;                           (* isinstance(event, tuple) *)
  has__fields : bool;                        (* hasattr(event, '_fields') *)
  _asdict : result (gmap string pyval);      (* event._asdict() *)
  dict : result (gmap string pyval)          (* dict(event) *)
}.

(** The [pubsub] argument is only passed along. *)
Record PubSub : Type := { pubsub_name : string }.

(** A callback scheduled on [self._ev_loop], with its arguments. *)
Record callback : Type := mk_callback {
  cb_event_tag : Z;
  cb_pubsub : PubSub;
  cb_event : Payload
}.

(** Calls made on collaborators while the forwarder is set up or torn
    down: [create_publisher], [add_listener], [remove_listener], and the
    [logger().info] that reports a bridge. *)
Inductive action : Type :=
| CreatePublisher (topic : string)
| AddListener (market : string) (event : MarketEvent)
| RemoveListener (market : string) (event : MarketEvent)
| LogInfo (event : MarketEvent).

Record world : Type := mk_world {
  wall_clock : Q;                              (* datetime.now().timestamp() *)
  published : list (thread * EventMessage);    (* messages handed to publish, with the calling thread *)
  loop_queue : list callback;                  (* scheduled by call_soon_threadsafe *)
  actions : list action
}.

Definition record_publish (cur : thread) (m : EventMessage) (w : world) : world :=
  mk_world (wall_clock w) (published w ++ [(cur, m)])%list (loop_queue w) (actions w).

Definition call_soon_threadsafe (cb : callback) (w : world) : world :=
  mk_world (wall_clock w) (published w) (loop_queue w ++ [cb])%list (actions w).

Definition act (a : action) (w : world) : world :=
  mk_world (wall_clock w) (published w) (loop_queue w) (actions w ++ [a])%list.

Definition EVENT_URI : string := "hbot/$UID/events".

(** [self._market_event_pairs], in source order. *)
Definition _market_event_pairs : list MarketEvent :=
  [ BuyOrderCreated; BuyOrderCompleted; SellOrderCreated; SellOrderCompleted;
    OrderFilled; OrderFailure; OrderCancelled; OrderExpired;
    FundingPaymentCompleted;
    RangePositionLiquidityAdded; RangePositionLiquidityRemoved;
    RangePositionUpdate; RangePositionUpdateFailure;
    RangePositionFeeCollected; RangePositionClosed ].

Definition _app_event_pairs : list MarketEvent := [].

(** The attributes [__init__] sets. *)
Record forwarder : Type := {
  _markets : list string;
  _topic : string
}.

Section Setup.

(** The collaborators called while the forwarder is set up or torn down
    ([create_publisher], [add_listener], [remove_listener] and
    [logger().info]): given the calls made on them so far and the new one,
    they return or raise. *)
Variable collaborator : list action -> action -> result unit.

(** One such call: it is recorded, and ends as the collaborator says. *)
Definition perform (a : action) : M world unit :=
  fun w => (collaborator (actions w) a, act a w).

Definition start_event_listener (self : forwarder) : M world unit :=
  for_each (_markets self) (fun market =>
    for_each _market_event_pairs (fun event_pair =>
      perform (AddListener market event_pair) ;;;
      perform (LogInfo event_pair))) ;;;
  for_each _app_event_pairs (fun event_pair =>
    perform (AddListener "app" event_pair)).

Definition stop_event_listener (self : forwarder) : M world unit :=
  for_each (_markets self) (fun market =>
    for_each _market_event_pairs (fun event_pair =>
      perform (RemoveListener market event_pair))) ;;;
  for_each _app_event_pairs (fun event_pair =>
    perform (RemoveListener "app" event_pair)).

(** [__init__], called on thread [cur] for an application with identifier
    [uid] and the given markets. *)
Definition __init__ (cur : thread) (uid : string) (markets : list string)
  : M world forwarder :=
  if negb (is_main_thread cur) then
    raise (mk_exn EnvironmentError
             "MQTTEventForwarder can only be initialized from the main thread.")
  else
    let self := {| _markets := markets; _topic := replace EVENT_URI "$UID" uid |} in
    perform (CreatePublisher (_topic self)) ;;;
    start_event_listener self ;;;
    ret self.

End Setup.

Section SendEvent.

(** [events.MarketEvent.<member>.value], declared outside this module. *)
Variable value : MarketEvent -> Z.

(** [int(s)] on a string, a builtin: [None] when it raises [ValueError]. *)
Variable int_of_str : string -> option Z.

(** [self.event_fw_pub.publish], an external collaborator: given the
    publish calls made so far and the new message, it returns or raises. *)
Variable publish_outcome : list (thread * EventMessage) -> EventMessage -> result unit.

Definition publish (cur : thread) (m : EventMessage) : M world unit :=
  fun w => (publish_outcome (published w) m, record_publish cur m w).

(** The dictionary literal [event_types]: entries are stored in source
    order, a later entry replacing an earlier one with an equal key. *)
Definition event_types : gmap Z string :=
  foldl (fun d kv => <[fst kv := snd kv]> d) ∅
    [ (value BuyOrderCreated, "BuyOrderCreated");
      (value BuyOrderCompleted, "BuyOrderCompleted");
      (value SellOrderCreated, "SellOrderCreated");
      (value SellOrderCompleted, "SellOrderCompleted");
      (value OrderFilled, "OrderFilled");
      (value OrderCancelled, "OrderCancelled");
      (value OrderExpired, "OrderExpired");
      (value OrderFailure, "OrderFailure");
      (value FundingPaymentCompleted, "FundingPaymentCompleted");
      (value RangePositionLiquidityAdded, "RangePositionLiquidityAdded");
      (value RangePositionLiquidityRemoved, "RangePositionLiquidityRemoved");
      (value RangePositionUpdate, "RangePositionUpdate");
      (value RangePositionUpdateFailure, "RangePositionUpdateFailure");
      (value RangePositionFeeCollected, "RangePositionFeeCollected");
      (value RangePositionClosed, "RangePositionClosed") ].

(** The label of an identifier: its entry in [event_types], and
    ["Unknown"] when it has none. *)
Definition label (event_tag : Z) : string :=
  default "Unknown" (event_types !! event_tag).

(** [d[k]] *)
Definition getitem {S K V} `{Countable K} (d : gmap K V) (k : K) : M S V :=
  match d !! k with
  | Some v => ret v
  | None => raise (mk_exn KeyError "")
  end.

(** [d.pop(k)]: the value, and the dictionary without the key. *)
Definition pop {K V} `{Countable K} (d : gmap K V) (k : K) : result (V * gmap K V) :=
  match d !! k with
  | Some v => Ok (v, delete k d)
  | None => Raise (mk_exn KeyError "")
  end.

(** [int(x)] *)
Definition int (x : pyval) : result Z :=
  match x with
  | VNone => Raise (mk_exn TypeError
               "int() argument must be a string, a bytes-like object or a real number, not 'NoneType'")
  | VBool b => Ok (if b then 1 else 0)
  | VInt z => Ok z
  | VFloat q => Ok (Qtrunc q)
  | VNaN => Raise (mk_exn ValueError "cannot convert float NaN to integer")
  | VInf _ => Raise (mk_exn OverflowError "cannot convert float infinity to integer")
  | VStr s => match int_of_str s with
              | Some z => Ok z
              | None => Raise (mk_exn ValueError "invalid literal for int() with base 10")
              end
  end.

Definition lift {S A} (r : result A) : M S A := fun s => (r, s).

(** The first block: the label of [event_tag]. *)
Definition event_type_of (event_tag : Z) : M world string :=
  try_except (getitem event_types event_tag) is_KeyError (fun _ => ret "Unknown").

(** The second block: the payload as a mapping. *)
Definition event_data_of (event : Payload) : M world (gmap string pyval) :=
  if is_dataclass event then
    lift (asdict event)
  else if is_tuple event && has__fields event then
    lift (_asdict event)
  else
    try_except (lift (dict event)) is_TypeError_or_ValueError (fun _ => ret ∅).

(** The third block: [event_data.pop('timestamp')], or the wall clock.
    The dictionary is changed in place, so the block also yields it. *)
Definition timestamp_of (event_data : gmap string pyval)
  : M world (pyval * gmap string pyval) :=
  try_except (lift (pop event_data "timestamp")) is_KeyError
    (fun _ => now <- gets wall_clock ;; ret (VFloat now, event_data)).

Definition _send_mqtt_event (cur : thread) (event_tag : Z) (pubsub : PubSub)
    (event : Payload) : M world unit :=
  if negb (is_main_thread cur) then
    modify (call_soon_threadsafe (mk_callback event_tag pubsub event))
  else
    event_type <- event_type_of event_tag ;;
    event_data <- event_data_of event ;;
    ts <- timestamp_of event_data ;;
    timestamp <- lift (int (fst ts)) ;;
    publish cur {| ev_timestamp := timestamp;
                   ev_type := event_type;
                   ev_data := snd ts |}.

(** The event loop belongs to the main thread (it is the loop that
    [__init__], which runs on the main thread only, obtained): it takes the
    oldest scheduled callback and runs it there.  An exception a callback
    raises is reported by the loop and goes no further. *)
Definition run_callback : M world unit :=
  fun w =>
    match loop_queue w with
    | [] => (Ok tt, w)
    | cb :: rest =>
        let w0 := mk_world (wall_clock w) (published w) rest (actions w) in
        (Ok tt, snd (_send_mqtt_event MainThread (cb_event_tag cb) (cb_pubsub cb)
                                      (cb_event cb) w0))
    end.

End SendEvent.

(** The name of a member, as Python spells it. *)
Definition name (e : MarketEvent) : string :=
  match e with
  | BuyOrderCreated => "BuyOrderCreated"
  | BuyOrderCompleted => "BuyOrderCompleted"
  | SellOrderCreated => "SellOrderCreated"
  | SellOrderCompleted => "SellOrderCompleted"
  | OrderFilled => "OrderFilled"
  | OrderFailure => "OrderFailure"
  | OrderCancelled => "OrderCancelled"
  | OrderExpired => "OrderExpired"
  | FundingPaymentCompleted => "FundingPaymentCompleted"
  | RangePositionLiquidityAdded => "RangePositionLiquidityAdded"
  | RangePositionLiquidityRemoved => "RangePositionLiquidityRemoved"
  | RangePositionUpdate => "RangePositionUpdate"
  | RangePositionUpdateFailure => "RangePositionUpdateFailure"
  | RangePositionFeeCollected => "RangePositionFeeCollected"
  | RangePositionClosed => "RangePositionClosed"
  end.


(** The world with [q] as the callbacks still scheduled. *)
Definition with_queue (q : list callback) (w : world) : world :=
  mk_world (wall_clock w) (published w) q (actions w).

(** Familiar event objects, with what the standard library answers on
    each of them. *)
Definition not_a_dataclass {A} : result A :=
  Raise (mk_exn TypeError "asdict() should be called on dataclass instances").

Definition no__asdict {A} : result A :=
  Raise (mk_exn AttributeError "object has no attribute '_asdict'").

Definition not_iterable {A} : result A :=
  Raise (mk_exn TypeError "object is not iterable").

(** An instance of a class decorated with [@dataclass]. *)
Definition dataclass_instance (fields : gmap string pyval) : Payload :=
  {| is_dataclass := true; asdict := Ok fields;
     is_tuple := false; has__fields := false; _asdict := no__asdict;
     dict := not_iterable |}.



(** A dictionary, or an iterable of key/value pairs. *)
Definition mapping (items : gmap string pyval) : Payload :=
  {| is_dataclass := false; asdict := not_a_dataclass;
     is_tuple := false; has__fields := false; _asdict := no__asdict;
     dict := Ok items |}.

(** A number. *)
Definition int_object : Payload :=
  {| is_dataclass := false; asdict := not_a_dataclass;
     is_tuple := false; has__fields := false; _asdict := no__asdict;
     dict := not_iterable |}.



(** One assignment of pairwise distinct values to the members. *)
Definition sample_value (e : MarketEvent) : Z :=
  match e with
  | BuyOrderCompleted => 102
  | SellOrderCompleted => 103
  | OrderCancelled => 106
  | OrderFilled => 107
  | OrderExpired => 108
  | OrderFailure => 198
  | BuyOrderCreated => 200
  | SellOrderCreated => 201
  | FundingPaymentCompleted => 202
  | RangePositionLiquidityAdded => 300
  | RangePositionLiquidityRemoved => 301
  | RangePositionUpdate => 302
  | RangePositionUpdateFailure => 303
  | RangePositionFeeCollected => 304
  | RangePositionClosed => 305
  end.

(** An instance of the parameter [int_of_str] for the examples below, none
    of which converts a string.  It reads an optional sign followed by
    ASCII decimal digits and refuses every other string; Python's [int]
    accepts more (white space around the number, underscores between
    digits, other decimal digits). *)
Fixpoint digits (acc : Z) (s : string) : option Z :=
  match s with
  | EmptyString => Some acc
  | String c s' =>
      let n := Z.of_nat (nat_of_ascii c) in
      if (48 <=? n) && (n <=? 57) then digits (10 * acc + (n - 48)) s' else None
  end.

Definition unsigned (s : string) : option Z :=
  match s with
  | EmptyString => None
  | _ => digits 0 s
  end.

Definition sample_int_of_str (s : string) : option Z :=
  match s with
  | String "-" s' => Z.opp <$> unsigned s'
  | String "+" s' => unsigned s'
  | _ => unsigned s
  end.

(** A transport that accepts every message. *)
Definition publish_ok : list (thread * EventMessage) -> EventMessage -> result unit :=
  fun _ _ => Ok tt.

Definition sample_pubsub : PubSub := {| pubsub_name := "binance" |}.

Definition sample_world : world :=
  {| wall_clock := 17000000005 # 10; published := []; loop_queue := []; actions := [] |}.

(** The record of the spec's example: fields [amount = 5] and [timestamp = 1000]. *)
Definition sample_fields : gmap string pyval :=
  <["timestamp" := VInt 1000]> (<["amount" := VInt 5]> ∅).

End MQTTEventForwarder.

(** * class MQTTNotifier *)

Module MQTTNotifier.

Local Open Scope py_scope.

Definition NOTIFY_URI : string := "hbot/$UID/notify".

(** [__init__]: the topic the notifier publishes to. *)
Definition topic_of (uid topic : string) : string :=
  if String.eqb topic "" then replace NOTIFY_URI "$UID" uid else topic.

Section Notifier.

(** [self.notify_pub.publish], an external collaborator: given the
    messages handed to it so far and the new one, it returns or raises. *)
Variable publish_outcome : list string -> string -> result unit.

(** [add_msg_to_queue]: the publish call is not guarded. *)
Definition add_msg_to_queue (msg : string) : M (list string) unit :=
  fun sent => (publish_outcome sent msg, (sent ++ [msg])%list).

End Notifier.

End MQTTNotifier.

(** * class MQTTLogHandler *)

Module MQTTLogHandler.

Local Open Scope py_scope.

Definition MQTT_URI : string := "hbot/$UID/log".

(** The attributes of a [logging.LogRecord] that [emit] reads; [body]
    stands for what the formatter renders. *)
Record LogRecord : Type := {
  levelno : Z;
  levelname : string;
  name : string;
  body : string
}.

Record world : Type := mk_world {
  time : Q;                              (* time.time() *)
  publish_calls : list LogMessage        (* messages handed to log_pub.publish *)
}.

Section Emit.

(** [self.format(record)], inherited from [logging.Handler]: it runs the
    active formatter, which returns the text or raises. *)
Variable format : LogRecord -> result string.

(** [self.log_pub.publish], an external collaborator: given the messages
    handed to it so far and the new one, it returns or raises. *)
Variable publish_outcome : list LogMessage -> LogMessage -> result unit.

Definition publish (m : LogMessage) : M world unit :=
  fun w => (publish_outcome (publish_calls w) m,
            mk_world (time w) (publish_calls w ++ [m])%list).

Definition emit (record : LogRecord) : M world LogMessage :=
  msg_str <- (fun w => (format record, w)) ;;
  now <- gets time ;;
  let msg := {| log_timestamp := now;
                log_msg := msg_str;
                level_no := levelno record;
                level_name := levelname record;
                logger_name := name record |} in
  publish msg ;;;
  ret msg.

End Emit.

(** A formatter that renders the body, a transport that accepts every
    message, and one that is disconnected. *)
Definition format_body (record : LogRecord) : result string := Ok (body record).

Definition format_fails (record : LogRecord) : result string :=
  Raise (mk_exn TypeError "not all arguments converted during string formatting").

Definition publish_ok : list LogMessage -> LogMessage -> result unit :=
  fun _ _ => Ok tt.

Definition publish_fails : list LogMessage -> LogMessage -> result unit :=
  fun _ _ => Raise (mk_exn RuntimeError "not connected").

Definition sample_record : LogRecord :=
  {| levelno := 20; levelname := "INFO"; name := "hummingbot.strategy"; body := "order placed" |}.

Definition sample_world : world := {| time := 1700000000; publish_calls := [] |}.

End MQTTLogHandler.

(** * The command dispatcher: failure containment *)

Module CommandsSpec.

Import MQTTCommands.
Local Open Scope list_scope.

Lemma new_calls_app (tr l : trace) : new_calls tr (tr ++ l) = l.
Proof. unfold new_calls. apply drop_app_length. Qed.

Lemma new_calls_refl (tr : trace) : new_calls tr tr = [].
Proof. unfold new_calls. apply drop_all. Qed.

Lemma all_returned_no_raise (l : trace) c e :
  all_returned l -> (c, Raised e) ∈ l -> False.
Proof.
  intros Hall Hin. unfold all_returned in Hall. rewrite Forall_forall in Hall.
  specialize (Hall _ Hin). discriminate.
Qed.

(** In a trace that ends with the only raising call, a raising entry is
    that last one. *)
Lemma raised_is_last (l : trace) c e c0 e0 :
  all_returned l -> (c0, Raised e0) ∈ l ++ [(c, Raised e)] -> c0 = c /\ e0 = e.
Proof.
  intros Hall Hin. apply elem_of_app in Hin as [Hin | Hin].
  - destruct (all_returned_no_raise _ _ _ Hall Hin).
  - apply list_elem_of_singleton in Hin. by inversion Hin.
Qed.

(** The loop leaves status and message alone; it stops at the first call
    that raises, which is then the last call recorded, and it is never a
    notification. *)
Lemma config_loop_trace app ps :
  forall st,
    match for_each ps (config_step app) st with
    | (Ok _, st') =>
        status (response st') = status (response st) /\
        msg (response st') = msg (response st) /\
        exists l, calls st' = calls st ++ l /\ all_returned l
    | (Raise e, st') =>
        status (response st') = status (response st) /\
        msg (response st') = msg (response st) /\
        exists l c, calls st' = calls st ++ l ++ [(c, Raised e)] /\
                    all_returned l /\ (forall t, c <> CNotify t)
    end.
Proof.
  induction ps as [|p ps IH]; intros st.
  - simpl. repeat split. exists []. rewrite app_nil_r. split; [done | constructor].
  - cbn [for_each]. unfold bind at 1. unfold config_step at 1.
    unfold bind, invoke, when, update, modify.
    destruct (configurable_keys app (calls st)) as [keys | e] eqn:Hk; cbn.
    2:{ repeat split. exists [], CConfigurableKeys. cbn.
        split; [done | split; [constructor | congruence]]. }
    destruct (bool_decide (p.1 ∈ keys)); cbn.
    + destruct (config app _ p.1 p.2) as [[] | e] eqn:Hc; cbn.
      2:{ repeat split. exists [(CConfigurableKeys, Returned)], (CConfig p.1 p.2).
          cbn. rewrite <- app_assoc. cbn.
          split; [done | split; [repeat constructor | congruence]]. }
      match goal with |- context [for_each ps _ ?s] => specialize (IH s) end.
      destruct (for_each ps (config_step app) _) as [[[] | e] st'] eqn:Hl; cbn in IH |- *.
      * destruct IH as (Hs & Hm & l & Hl' & Hall). repeat split; [done | done |].
        exists ((CConfigurableKeys, Returned) :: (CConfig p.1 p.2, Returned) :: l).
        rewrite Hl'. rewrite <- !app_assoc. cbn. split; [done |].
        repeat constructor; done.
      * destruct IH as (Hs & Hm & l & c & Hl' & Hall & Hn). repeat split; [done | done |].
        exists ((CConfigurableKeys, Returned) :: (CConfig p.1 p.2, Returned) :: l), c.
        rewrite Hl'. rewrite <- !app_assoc. cbn. split; [done |].
        split; [repeat constructor; done | done].
    + match goal with |- context [for_each ps _ ?s] => specialize (IH s) end.
      destruct (for_each ps (config_step app) _) as [[[] | e] st'] eqn:Hl; cbn in IH |- *.
      * destruct IH as (Hs & Hm & l & Hl' & Hall). repeat split; [done | done |].
        exists ((CConfigurableKeys, Returned) :: l).
        rewrite Hl'. rewrite <- !app_assoc. cbn. split; [done |].
        repeat constructor; done.
      * destruct IH as (Hs & Hm & l & c & Hl' & Hall & Hn). repeat split; [done | done |].
        exists ((CConfigurableKeys, Returned) :: l), c.
        rewrite Hl'. rewrite <- !app_assoc. cbn. split; [done |].
        split; [repeat constructor; done | done].
Qed.

Ltac run_handler :=
  unfold _on_cmd_start, _on_cmd_stop, _on_cmd_import, _on_cmd_status,
    _on_cmd_history, _on_cmd_balance_limit, _on_cmd_balance_paper,
    handler, try_except, set_error, bind, invoke, update, modify, when, ret;
  cbn.

(** Case analysis on the outcome of every application call in [H]. *)
Ltac split_calls H :=
  repeat match type of H with
         | context [match ?x with _ => _ end] =>
             lazymatch x with
             | context [match _ with _ => _ end] => fail
             | _ => destruct x eqn:?; cbn in H
             end
         end.

(** Normalise [new_calls tr (tr ++ ...)] in [H]. *)
Ltac trace_suffix H :=
  rewrite <- ?app_assoc in H; rewrite ?new_calls_app, ?new_calls_refl in H; cbn in H.

(** Which entry of an explicit trace [H] speaks of. *)
Ltac pick_entry H :=
  repeat (apply elem_of_cons in H as [H | H]);
  try (apply elem_of_nil in H; destruct H);
  try (inversion H; subst; clear H).

(** Point at an entry of an explicit trace. *)
Ltac find_entry :=
  first [ apply list_elem_of_here | apply list_elem_of_further; find_entry ].

(** What the config handler returns and records, in terms of its body. *)
Lemma config_handler_trace app (req : ConfigRequest) tr res tr' :
  _on_cmd_config app req tr = (res, tr') ->
  (exists l, tr' = tr ++ l /\ all_returned l /\
             exists r, res = Ok r /\ status r = OK /\ msg r = "") \/
  (exists l c e, tr' = tr ++ l ++ [(c, Raised e)] /\ all_returned l /\
                 (forall t, c <> CNotify t) /\
                 if is_Exception e
                 then exists r, res = Ok r /\ status r = ERROR /\ msg r = exn_str e
                 else res = Raise e).
Proof.
  unfold _on_cmd_config, handler, try_except.
  destruct (length (params req) =? 0)%nat.
  - unfold invoke. cbn.
    destruct (config_interactive app tr) as [[] | e]; cbn; intros H.
    + left. exists [(CConfigInteractive, Returned)]. inversion H; subst.
      split; [done | split; [repeat constructor | eauto]].
    + right. exists [], CConfigInteractive, e.
      destruct (is_Exception e); cbn in H; inversion H; subst; cbn;
        (split; [done | split; [constructor | split; [congruence | eauto]]]).
  - pose proof (config_loop_trace app (params req) (mk_frame (new_response []) tr)) as Hl.
    destruct (for_each (params req) (config_step app) _) as [[[] | e] st']; cbn in Hl.
    + destruct Hl as (Hs & Hm & l & Hc & Hall). intros H; inversion H; subst.
      left. exists l. eauto 10.
    + destruct Hl as (Hs & Hm & l & c & Hc & Hall & Hn). intros H.
      right. exists l, c, e.
      destruct (is_Exception e); cbn in H; inversion H; subst; cbn; eauto 10.
Qed.

(** An error leaves a handler only when it does not derive from
    [Exception], or when a notification call raised it. *)
Lemma escaping_error app c (req : Request c) tr e tr' :
  on_request app c req tr = (Raise e, tr') ->
  exists cl, (cl, Raised e) ∈ new_calls tr tr' /\
             (is_Exception e = false \/ exists t, cl = CNotify t).
Proof.
  destruct c; cbn in req |- *.
  3:{ intros H. apply config_handler_trace in H as
        [(l & _ & _ & r & Hr & _) | (l & cl & e0 & -> & Hall & Hn & Hres)];
        [discriminate |].
      destruct (is_Exception e0) eqn:He0.
      - destruct Hres as (r & Hr & _). discriminate.
      - inversion Hres; subst. exists cl. rewrite new_calls_app.
        split; [| by left]. apply elem_of_app. right. apply list_elem_of_singleton. done. }
  all: run_handler; intros H; split_calls H; inversion H; subst; clear H;
    eexists; rewrite <- ?app_assoc, ?new_calls_app; cbn;
    (split; [ find_entry | first [ by left | right; eauto ] ]).
Qed.

(** When a call raised an [Exception] and no notification call raised,
    the handler returns the error response. *)
Lemma reported_error app c (req : Request c) tr res tr' :
  on_request app c req tr = (res, tr') ->
  (forall t e, (CNotify t, Raised e) ∉ new_calls tr tr') ->
  forall cl e, (cl, Raised e) ∈ new_calls tr tr' ->
  is_Exception e = true ->
  exists r, res = Ok r /\ status r = ERROR /\ msg r = exn_str e.
Proof.
  destruct c; cbn in req |- *.
  3:{ intros H _ cl e Hin He.
      apply config_handler_trace in H as
        [(l & -> & Hall & _) | (l & c0 & e0 & -> & Hall & _ & Hres)].
      - rewrite new_calls_app in Hin. destruct (all_returned_no_raise _ _ _ Hall Hin).
      - rewrite new_calls_app in Hin.
        destruct (raised_is_last _ _ _ _ _ Hall Hin) as [-> ->].
        by rewrite He in Hres. }
  all: run_handler; intros H Hnotify cl e Hin He; split_calls H;
    inversion H; subst; clear H; trace_suffix Hin; pick_entry Hin;
    try congruence; try (eexists; split; [reflexivity | by split]).
  all: exfalso; eapply Hnotify; rewrite <- app_assoc, new_calls_app;
    apply list_elem_of_further, list_elem_of_here.
Qed.

(** C2 (as amended).  Whatever the command: an error leaves its handler
    only if it does not derive from [Exception] or a notification call
    raised it; and if an application call made by the handler raised an
    error [e] that derives from [Exception], no notification call having
    raised, the handler returns a response with status [ERROR] and message
    [str(e)]. *)
Theorem handler_contains_exceptions app c (req : Request c) tr res tr' :
  on_request app c req tr = (res, tr') ->
  (forall e, res = Raise e ->
     exists cl, (cl, Raised e) ∈ new_calls tr tr' /\
                (is_Exception e = false \/ exists t, cl = CNotify t)) /\
  ((forall t e, (CNotify t, Raised e) ∉ new_calls tr tr') ->
   forall cl e, (cl, Raised e) ∈ new_calls tr tr' ->
   is_Exception e = true ->
   exists r, res = Ok r /\ status r = ERROR /\ msg r = exn_str e).
Proof.
  intros H. split.
  - intros e ->. by apply (escaping_error app c req).
  - by apply (reported_error app c req).
Qed.

Lemma handler_contains_exceptions_witness :
  exists r, fst (on_request app_down Start start_request []) = Ok r /\
            status r = ERROR /\ msg r = "boom"%string.
Proof.
  destruct (handler_contains_exceptions app_down Start start_request [] _ _ eq_refl)
    as [_ Hreported].
  apply (Hreported) with (cl := CStart None false None false)
                         (e := mk_exn RuntimeError "boom").
  - intros t e Hin. vm_compute in Hin. pick_entry Hin.
  - vm_compute. apply list_elem_of_here.
  - reflexivity.
Defined.

(** C2, as stated, fails: an error that does not derive from [Exception]
    leaves the start handler, and an error raised by the notification call
    leaves the import handler. *)
Lemma handler_contains_every_error_counterexample :
  start app_interrupted [] None false None false = Raise (mk_exn KeyboardInterrupt "") /\
  fst (on_request app_interrupted Start start_request [])
    = Raise (mk_exn KeyboardInterrupt "") /\
  fst (on_request app_import_and_notify_fail ImportStrategy {| strategy := Some "pmm" |} [])
    = Raise (mk_exn RuntimeError "notifier down") /\
  ~ (forall app c (req : Request c) tr res tr' cl e,
       on_request app c req tr = (res, tr') ->
       (cl, Raised e) ∈ new_calls tr tr' ->
       exists r, res = Ok r /\ status r = ERROR /\ msg r = exn_str e).
Proof.
  repeat split; try reflexivity.
  intros Hclaim.
  destruct (Hclaim app_interrupted Start start_request [] _ _
              (CStart None false None false) (mk_exn KeyboardInterrupt "") eq_refl)
    as (r & Hr & _).
  - vm_compute. apply list_elem_of_here.
  - discriminate.
Qed.

(** C3, as stated, fails: when applying the first pair raises, the pair is
    not in [changes]; the list is empty. *)
Lemma config_failure_changes_counterexample :
  configurable_keys app_config_fails [] = Ok ["k1"; "k2"]%string /\
  config app_config_fails [(CConfigurableKeys, Returned)] "k1" (VInt 1)
    = Raise (mk_exn ValueError "bad value") /\
  exists r tr',
    _on_cmd_config app_config_fails
      {| params := [("k1", VInt 1); ("k2", VInt 2)]%string |} [] = (Ok r, tr') /\
    status r = ERROR /\
    payload r = [] /\
    payload r <> [("k1"%string, VInt 1)].
Proof.
  split; [reflexivity |]. split; [reflexivity |].
  eexists _, _. split; [vm_compute; reflexivity |]. cbn.
  split; [reflexivity |]. split; [reflexivity | discriminate].
Qed.

(** C3 (as amended).  When the first pair [(k1, v1)] of a config request
    has an allow-listed key and applying it raises an [Exception] [e], the
    handler stops there: it validates and applies no later pair such as
    [(k2, v2)], and returns status [ERROR], message [str(e)] and an empty
    [changes] list, the failed pair not being recorded. *)
Theorem config_failure_aborts app tr k1 v1 rest keys e :
  configurable_keys app tr = Ok keys ->
  k1 ∈ keys ->
  config app (tr ++ [(CConfigurableKeys, Returned)]) k1 v1 = Raise e ->
  is_Exception e = true ->
  _on_cmd_config app {| params := (k1, v1) :: rest |} tr =
    (Ok {| status := ERROR; msg := exn_str e; payload := [] |},
     tr ++ [(CConfigurableKeys, Returned); (CConfig k1 v1, Raised e)]).
Proof.
  intros Hkeys Hin Hraise He.
  unfold _on_cmd_config, handler, try_except. cbn [params length Nat.eqb for_each].
  unfold bind at 1. unfold config_step at 1.
  unfold bind, invoke, when. cbn. rewrite Hkeys. cbn.
  rewrite (bool_decide_eq_true_2 _ Hin). cbn.
  rewrite Hraise. cbn. rewrite He. cbn.
  by rewrite <- app_assoc.
Qed.

Lemma config_failure_aborts_witness :
  _on_cmd_config app_config_fails
    {| params := [("k1", VInt 1); ("k2", VInt 2)]%string |} [] =
    (Ok {| status := ERROR; msg := "bad value"; payload := [] |},
     [(CConfigurableKeys, Returned);
      (CConfig "k1" (VInt 1), Raised (mk_exn ValueError "bad value"))]).
Proof.
  apply (config_failure_aborts app_config_fails [] "k1" (VInt 1)
           [("k2"%string, VInt 2)] ["k1"; "k2"]%string
           (mk_exn ValueError "bad value")).
  - reflexivity.
  - apply list_elem_of_here.
  - reflexivity.
  - reflexivity.
Defined.

(** A pair applied before the failing one stays in [changes], and a key
    that is not allow-listed is skipped without a word. *)
Example config_failure_keeps_earlier_changes :
  _on_cmd_config app_second_config_fails
    {| params := [("k1", VInt 1); ("zz", VInt 0); ("k2", VInt 2)]%string |} [] =
    (Ok {| status := ERROR; msg := "bad value"; payload := [("k1"%string, VInt 1)] |},
     [(CConfigurableKeys, Returned); (CConfig "k1" (VInt 1), Returned);
      (CConfigurableKeys, Returned);
      (CConfigurableKeys, Returned);
      (CConfig "k2" (VInt 2), Raised (mk_exn ValueError "bad value"))]).
Proof. reflexivity. Qed.

(** C4.  For every command but config: if an application call made by the
    handler raised and the handler returned a response, that response has
    status [ERROR] and its payload fields are at their default. *)
Theorem payload_default_on_failure app c (req : Request c) tr r tr' :
  c <> Config ->
  on_request app c req tr = (Ok r, tr') ->
  (exists cl e, (cl, Raised e) ∈ new_calls tr tr') ->
  status r = ERROR /\ payload r = default_payload c.
Proof.
  destruct c; cbn in req, r |- *; try congruence; intros _.
  all: run_handler; intros H (cl & e & Hin); split_calls H;
    inversion H; subst; clear H; trace_suffix Hin; pick_entry Hin; done.
Qed.

Lemma payload_default_on_failure_witness :
  Status <> Config /\ History <> Config /\
  (let r := {| status := ERROR; msg := "boom"; payload := ""%string |} in
   fst (on_request app_down Status tt []) = Ok r /\
   status r = ERROR /\ payload r = ""%string) /\
  (let r := {| status := ERROR; msg := "database locked"; payload := [] |} in
   fst (on_request app_trades_fail History history_request []) = Ok r /\
   status r = ERROR /\ payload r = []).
Proof.
  split; [discriminate |]. split; [discriminate |]. split.
  - split; [reflexivity |].
    apply (payload_default_on_failure app_down Status tt [] _ _
             ltac:(discriminate) eq_refl).
    exists CStrategyStatus, (mk_exn RuntimeError "boom").
    vm_compute. apply list_elem_of_here.
  - split; [reflexivity |].
    apply (payload_default_on_failure app_trades_fail History history_request [] _ _
             ltac:(discriminate) eq_refl).
    exists CTradesAll, (mk_exn RuntimeError "database locked").
    vm_compute. do 2 apply list_elem_of_further. apply list_elem_of_here.
Defined.

(** The import handler, case by case. *)
Lemma import_without_strategy app tr :
  _on_cmd_import app {| strategy := None |} tr = (Ok (new_response tt), tr).
Proof. reflexivity. Qed.

Lemma import_success app tr name :
  import_command app tr (name ++ ".yml")%string = Ok tt ->
  _on_cmd_import app {| strategy := Some name |} tr =
    (Ok (new_response tt), tr ++ [(CImportCommand (name ++ ".yml")%string, Returned)]).
Proof. intros H. run_handler. by rewrite H. Qed.

Lemma import_failure_reported app tr name e :
  import_command app tr (name ++ ".yml")%string = Raise e ->
  is_Exception e = true ->
  notify app (tr ++ [(CImportCommand (name ++ ".yml")%string, Raised e)]) (exn_str e)
    = Ok tt ->
  _on_cmd_import app {| strategy := Some name |} tr =
    (Ok {| status := ERROR; msg := exn_str e; payload := tt |},
     tr ++ [(CImportCommand (name ++ ".yml")%string, Raised e);
            (CNotify (exn_str e), Returned)]).
Proof.
  intros H He Hn. run_handler. rewrite H. cbn. rewrite He, Hn. cbn.
  by rewrite <- app_assoc.
Qed.

(** Double reporting: the failure goes to the notification path and into
    the response. *)
Example import_double_report :
  _on_cmd_import app_down_notify_ok {| strategy := Some "pmm"%string |} [] =
    (Ok {| status := ERROR; msg := "boom"; payload := tt |},
     [(CImportCommand "pmm.yml", Raised (mk_exn RuntimeError "boom"));
      (CNotify "boom", Returned)]).
Proof. reflexivity. Qed.

(** A successful status request carries the text as [strip()] gives it. *)
Example status_trimmed :
  _on_cmd_status app_ok tt [] =
    (Ok {| status := OK; msg := ""; payload := "running"%string |},
     [(CStrategyStatus, Returned)]).
Proof. reflexivity. Qed.

(** The rpc names of the instance [bot1]. *)
Example rpc_names :
  map fst (_init_commands "bot1") =
    ["hbot/bot1/start"; "hbot/bot1/stop"; "hbot/bot1/config"; "hbot/bot1/import";
     "hbot/bot1/status"; "hbot/bot1/history"; "hbot/bot1/balance/limit";
     "hbot/bot1/balance/paper"]%string.
Proof. reflexivity. Qed.

(** C5, where the code departs from it.  When the import raises an
    [Exception] and the notification call that forwards its message raises
    in turn, the handler returns no response: the second error leaves it. *)
Theorem import_failure_notify_raises app tr name e e' :
  import_command app tr (name ++ ".yml")%string = Raise e ->
  is_Exception e = true ->
  notify app (tr ++ [(CImportCommand (name ++ ".yml")%string, Raised e)]) (exn_str e)
    = Raise e' ->
  _on_cmd_import app {| strategy := Some name |} tr =
    (Raise e',
     tr ++ [(CImportCommand (name ++ ".yml")%string, Raised e);
            (CNotify (exn_str e), Raised e')]).
Proof.
  intros H He Hn. run_handler. rewrite H. cbn. rewrite He, Hn. cbn.
  by rewrite <- app_assoc.
Qed.

Lemma import_failure_notify_raises_witness :
  _on_cmd_import app_import_and_notify_fail {| strategy := Some "pmm"%string |} [] =
    (Raise (mk_exn RuntimeError "notifier down"),
     [(CImportCommand "pmm.yml", Raised (mk_exn RuntimeError "no such strategy"));
      (CNotify "no such strategy", Raised (mk_exn RuntimeError "notifier down"))]).
Proof.
  apply (import_failure_notify_raises app_import_and_notify_fail [] "pmm"
           (mk_exn RuntimeError "no such strategy")
           (mk_exn RuntimeError "notifier down")); reflexivity.
Defined.

End CommandsSpec.

(** * The event forwarder *)

Module ForwarderSpec.

Import MQTTEventForwarder.
Local Open Scope list_scope.

Section Forwarder.

Variable value : MarketEvent -> Z.
Variable int_of_str : string -> option Z.
Variable publish_outcome : list (thread * EventMessage) -> EventMessage -> result unit.

Local Abbreviation send := (_send_mqtt_event value int_of_str publish_outcome).

(** The label lookup never raises: a missing key gives ["Unknown"]. *)
Lemma event_type_of_label event_tag w :
  event_type_of value event_tag w = (Ok (label value event_tag), w).
Proof.
  unfold event_type_of, try_except, getitem, label.
  destruct (event_types value !! event_tag); reflexivity.
Qed.

(** Normalisation reads the payload and leaves the world alone. *)
Lemma event_data_of_world event w : snd (event_data_of event w) = w.
Proof.
  unfold event_data_of, try_except, lift.
  destruct (is_dataclass event); [reflexivity |].
  destruct (is_tuple event && has__fields event); [reflexivity |].
  destruct (dict event) as [d | e]; [reflexivity |].
  destruct (is_TypeError_or_ValueError e); reflexivity.
Qed.

(** The timestamp block: the popped entry, or the wall clock. *)
Lemma timestamp_of_cases (d : gmap string pyval) w :
  timestamp_of d w =
    (Ok match d !! "timestamp" with
        | Some v => (v, delete "timestamp" d)
        | None => (VFloat (wall_clock w), d)
        end, w).
Proof.
  unfold timestamp_of, try_except, lift, pop.
  destruct (d !! "timestamp"); reflexivity.
Qed.

(** The handler on the main thread, block by block. *)
Lemma send_main_eq event_tag pubsub event w :
  send MainThread event_tag pubsub event w =
    match fst (event_data_of event w) with
    | Raise e => (Raise e, w)
    | Ok d =>
        let ts := match d !! "timestamp" with
                  | Some v => (v, delete "timestamp" d)
                  | None => (VFloat (wall_clock w), d)
                  end in
        match int int_of_str (fst ts) with
        | Raise e => (Raise e, w)
        | Ok n =>
            let m := {| ev_timestamp := n;
                        ev_type := label value event_tag;
                        ev_data := snd ts |} in
            (publish_outcome (published w) m, record_publish MainThread m w)
        end
    end.
Proof.
  unfold _send_mqtt_event. cbn [is_main_thread negb].
  unfold bind at 1. rewrite event_type_of_label.
  unfold bind at 1.
  pose proof (event_data_of_world event w) as Hw.
  destruct (event_data_of event w) as [[d | e] w0]; cbn in Hw; subst w0;
    cbn [fst]; [| reflexivity].
  unfold bind at 1. rewrite timestamp_of_cases.
  unfold bind, lift, publish. cbn zeta.
  destruct (int int_of_str _) as [n | e]; reflexivity.
Qed.

(** On the main thread, once the payload is a mapping [d] and its
    timestamp [ts] converts to [n], the message is handed to the publisher. *)
Lemma send_on_main event_tag pubsub event w d n :
  fst (event_data_of event w) = Ok d ->
  int int_of_str (match d !! "timestamp" with
                  | Some v => v
                  | None => VFloat (wall_clock w)
                  end) = Ok n ->
  let m := {| ev_timestamp := n;
              ev_type := label value event_tag;
              ev_data := match d !! "timestamp" with
                         | Some _ => delete "timestamp" d
                         | None => d
                         end |} in
  send MainThread event_tag pubsub event w =
    (publish_outcome (published w) m, record_publish MainThread m w).
Proof.
  intros Hd Hn m. subst m. rewrite send_main_eq, Hd. cbn zeta.
  destruct (d !! "timestamp") as [v |]; cbn [fst snd]; rewrite Hn; reflexivity.
Qed.

(** The table holds, for each member it lists, the member's name. *)
Lemma event_types_member (Hinj : forall a b, value a = value b -> a = b) e :
  event_types value !! value e = Some (name e).
Proof.
  unfold event_types. cbn [foldl fst snd].
  destruct e;
    repeat first
      [ rewrite lookup_insert_eq; reflexivity
      | rewrite lookup_insert_ne by (let H := fresh in intros H; apply Hinj in H; discriminate) ].
Qed.

Lemma event_types_other event_tag :
  (forall e, event_tag <> value e) -> event_types value !! event_tag = None.
Proof.
  intros Hne. unfold event_types. cbn [foldl fst snd].
  repeat (rewrite lookup_insert_ne by (apply not_eq_sym, Hne)).
  apply lookup_empty.
Qed.



(** On the main thread the handler changes the world by at most one
    publish call, made on that thread. *)
Lemma send_main_world event_tag pubsub event w :
  snd (send MainThread event_tag pubsub event w) = w \/
  exists m, snd (send MainThread event_tag pubsub event w) = record_publish MainThread m w.
Proof.
  rewrite send_main_eq.
  destruct (fst (event_data_of event w)) as [d | e]; [| by left].
  cbn zeta. destruct (int int_of_str _) as [n | e]; [| by left].
  right. eexists. reflexivity.
Qed.

Lemma send_main_queue event_tag pubsub event w :
  loop_queue (snd (send MainThread event_tag pubsub event w)) = loop_queue w.
Proof.
  destruct (send_main_world event_tag pubsub event w) as [-> | [m ->]]; reflexivity.
Qed.



(** C8 (as amended).  On the main thread, for an event whose payload
    normalises to the mapping [d]: if [d] has a [timestamp] entry whose
    value converts to the integer [n], the message handed to the publisher
    has timestamp [n] and carries [d] without that entry, so its data has
    no [timestamp] key; if [d] has a [timestamp] entry on which [int]
    raises, that error leaves the handler and nothing is published; if [d]
    has no such entry, the message has the wall-clock reading, as an
    integer, for timestamp and carries [d]. *)
Theorem timestamp_extraction event_tag pubsub event w (d : gmap string pyval) :
  fst (event_data_of event w) = Ok d ->
  (forall v n, d !! "timestamp" = Some v -> int int_of_str v = Ok n ->
     published (snd (send MainThread event_tag pubsub event w)) =
       published w ++ [(MainThread, {| ev_timestamp := n;
                                       ev_type := label value event_tag;
                                       ev_data := delete "timestamp" d |})] /\
     delete "timestamp" d !! "timestamp" = None) /\
  (forall v e, d !! "timestamp" = Some v -> int int_of_str v = Raise e ->
     send MainThread event_tag pubsub event w = (Raise e, w)) /\
  (d !! "timestamp" = None ->
     published (snd (send MainThread event_tag pubsub event w)) =
       published w ++ [(MainThread, {| ev_timestamp := Qtrunc (wall_clock w);
                                       ev_type := label value event_tag;
                                       ev_data := d |})]).
Proof.
  intros Hd. split; [| split].
  - intros v n Hv Hn. split; [| apply lookup_delete_eq].
    rewrite (send_on_main event_tag pubsub event w d n Hd); rewrite Hv; [reflexivity | exact Hn].
  - intros v e Hv He. rewrite send_main_eq, Hd. cbn zeta. rewrite Hv. cbn [fst].
    by rewrite He.
  - intros Hnone.
    rewrite (send_on_main event_tag pubsub event w d (Qtrunc (wall_clock w)) Hd);
      rewrite Hnone; reflexivity.
Qed.

(** C9.  On the main thread, for an event whose payload normalises and
    whose timestamp, if it has one, converts to an integer, exactly one
    message is handed to the publisher; its type is the name of the member
    whose value the identifier is, and ["Unknown"] when the identifier is
    the value of no member of the table. *)
Theorem published_type_is_label event_tag pubsub event w (d : gmap string pyval) :
  (forall a b, value a = value b -> a = b) ->
  fst (event_data_of event w) = Ok d ->
  (forall v, d !! "timestamp" = Some v -> exists n, int int_of_str v = Ok n) ->
  exists m,
    published (snd (send MainThread event_tag pubsub event w)) =
      published w ++ [(MainThread, m)] /\
    ev_type m = label value event_tag /\
    (forall e, event_tag = value e -> ev_type m = name e) /\
    ((forall e, event_tag <> value e) -> ev_type m = "Unknown").
Proof.
  intros Hinj Hd Hts.
  assert (Hn : exists n, int int_of_str
                 (match d !! "timestamp" with
                  | Some v => v
                  | None => VFloat (wall_clock w)
                  end) = Ok n).
  { destruct (d !! "timestamp") as [v |]; [by apply Hts | by eexists]. }
  destruct Hn as [n Hn].
  eexists. rewrite (send_on_main event_tag pubsub event w d n Hd Hn).
  split; [reflexivity |]. cbn [ev_type]. split; [reflexivity |]. split.
  - intros e ->. unfold label. by rewrite (event_types_member Hinj).
  - intros Hne. unfold label. by rewrite (event_types_other _ Hne).
Qed.

End Forwarder.

(** C10.  On any thread but the main one, constructing the forwarder
    raises [EnvironmentError] and leaves the world as it was: no publisher
    is created and no listener registered.  A construction that returns
    was made on the main thread. *)
Theorem init_main_thread_only collaborator uid markets w :
  (forall ident,
     __init__ collaborator (WorkerThread ident) uid markets w =
       (Raise (mk_exn EnvironmentError
                 "MQTTEventForwarder can only be initialized from the main thread."), w)) /\
  (forall cur self w',
     __init__ collaborator cur uid markets w = (Ok self, w') -> cur = MainThread).
Proof.
  split; [reflexivity |].
  intros [| ident] self w' H; [reflexivity | discriminate].
Qed.

(** The spec's example: a record with fields [amount = 5] and
    [timestamp = 1000], fired as an [OrderFilled] event. *)
Example spec_example_record :
  published (snd (_send_mqtt_event sample_value sample_int_of_str publish_ok
                    MainThread 107 sample_pubsub
                    (dataclass_instance sample_fields) sample_world)) =
    [(MainThread, {| ev_timestamp := 1000;
                     ev_type := "OrderFilled";
                     ev_data := {["amount" := VInt 5]} |})].
Proof. vm_compute. reflexivity. Qed.



Lemma sample_value_inj a b : sample_value a = sample_value b -> a = b.
Proof. destruct a, b; cbn; intros H; first [reflexivity | discriminate H]. Defined.


Lemma timestamp_extraction_witness :
  published (snd (_send_mqtt_event sample_value sample_int_of_str publish_ok
                    MainThread 107 sample_pubsub
                    (dataclass_instance sample_fields) sample_world)) =
    [(MainThread, {| ev_timestamp := 1000;
                     ev_type := label sample_value 107;
                     ev_data := delete "timestamp" sample_fields |})] /\
  published (snd (_send_mqtt_event sample_value sample_int_of_str publish_ok
                    MainThread 107 sample_pubsub
                    (mapping {["amount" := VInt 5]}) sample_world)) =
    [(MainThread, {| ev_timestamp := 1700000000;
                     ev_type := label sample_value 107;
                     ev_data := {["amount" := VInt 5]} |})] /\
  _send_mqtt_event sample_value sample_int_of_str publish_ok
    MainThread 107 sample_pubsub (mapping {["timestamp" := VStr "soon"]}) sample_world =
    (Raise (mk_exn ValueError "invalid literal for int() with base 10"), sample_world).
Proof.
  split; [| split].
  - destruct (timestamp_extraction sample_value sample_int_of_str publish_ok 107
                sample_pubsub (dataclass_instance sample_fields) sample_world
                sample_fields eq_refl) as (Hsome & _ & _).
    exact (proj1 (Hsome (VInt 1000) 1000 eq_refl eq_refl)).
  - destruct (timestamp_extraction sample_value sample_int_of_str publish_ok 107
                sample_pubsub (mapping {["amount" := VInt 5]}) sample_world
                {["amount" := VInt 5]} eq_refl) as (_ & _ & Hnone).
    exact (Hnone eq_refl).
  - destruct (timestamp_extraction sample_value sample_int_of_str publish_ok 107
                sample_pubsub (mapping {["timestamp" := VStr "soon"]}) sample_world
                {["timestamp" := VStr "soon"]} eq_refl) as (_ & Hraise & _).
    exact (Hraise (VStr "soon") _ eq_refl eq_refl).
Defined.

(** C8, as stated, fails: a payload whose [timestamp] is [None], or a
    float that is not a number, normalises and has the entry, but [int]
    raises on it: the error leaves the handler and no message is
    published, with or without a [timestamp] key. *)
Lemma timestamp_always_converts_counterexample :
  fst (event_data_of (mapping {["timestamp" := VNone]}) sample_world) =
    Ok {["timestamp" := VNone]} /\
  _send_mqtt_event sample_value sample_int_of_str publish_ok
    MainThread 107 sample_pubsub (mapping {["timestamp" := VNone]}) sample_world =
    (Raise (mk_exn TypeError
       "int() argument must be a string, a bytes-like object or a real number, not 'NoneType'"),
     sample_world) /\
  published (snd (_send_mqtt_event sample_value sample_int_of_str publish_ok
                    MainThread 107 sample_pubsub
                    (mapping {["timestamp" := VNone]}) sample_world)) = [] /\
  _send_mqtt_event sample_value sample_int_of_str publish_ok
    MainThread 107 sample_pubsub (mapping {["timestamp" := VNaN]}) sample_world =
    (Raise (mk_exn ValueError "cannot convert float NaN to integer"), sample_world) /\
  _send_mqtt_event sample_value sample_int_of_str publish_ok
    MainThread 107 sample_pubsub (mapping {["timestamp" := VInf false]}) sample_world =
    (Raise (mk_exn OverflowError "cannot convert float infinity to integer"), sample_world).
Proof. repeat split. Qed.

Lemma published_type_is_label_witness :
  exists m,
    published (snd (_send_mqtt_event sample_value sample_int_of_str publish_ok
                      MainThread 107 sample_pubsub
                      (dataclass_instance sample_fields) sample_world)) =
      [(MainThread, m)] /\
    ev_type m = label sample_value 107 /\
    (forall e, 107 = sample_value e -> ev_type m = name e) /\
    ((forall e, 107 <> sample_value e) -> ev_type m = "Unknown").
Proof.
  apply (published_type_is_label sample_value sample_int_of_str publish_ok 107
           sample_pubsub (dataclass_instance sample_fields) sample_world sample_fields).
  - exact sample_value_inj.
  - reflexivity.
  - intros v Hv. exists 1000. vm_compute in Hv. by inversion Hv.
Defined.

End ForwarderSpec.

(** * The log sink *)

Module LogHandlerSpec.

Import MQTTLogHandler.
Local Open Scope list_scope.

(** C1, as stated, fails: a publisher that raises makes [emit] raise, and
    so does a formatter that raises. *)
Lemma emit_never_raises_counterexample :
  fst (emit format_body publish_fails sample_record sample_world) =
    Raise (mk_exn RuntimeError "not connected") /\
  fst (emit format_fails publish_ok sample_record sample_world) =
    Raise (mk_exn TypeError "not all arguments converted during string formatting").
Proof. split; reflexivity. Qed.

(** C1 (as amended).  [emit] contains nothing: an error raised while
    formatting the record leaves [emit] before anything is published, an
    error raised by the publisher leaves [emit] too, and when both return
    [emit] returns the Log Message it handed to the publisher, built from
    the formatted text, the clock and the record's level and logger name. *)
Theorem emit_outcome format publish_outcome record w :
  let message s := {| log_timestamp := time w;
                      log_msg := s;
                      level_no := levelno record;
                      level_name := levelname record;
                      logger_name := name record |} in
  (forall e, format record = Raise e ->
     emit format publish_outcome record w = (Raise e, w)) /\
  (forall s e, format record = Ok s ->
     publish_outcome (publish_calls w) (message s) = Raise e ->
     emit format publish_outcome record w =
       (Raise e, mk_world (time w) (publish_calls w ++ [message s]))) /\
  (forall s, format record = Ok s ->
     publish_outcome (publish_calls w) (message s) = Ok tt ->
     emit format publish_outcome record w =
       (Ok (message s), mk_world (time w) (publish_calls w ++ [message s]))).
Proof.
  intros message. unfold emit, bind, gets, publish, ret. repeat split.
  - intros e ->. reflexivity.
  - intros s e -> Hp. subst message. cbn in Hp |- *. by rewrite Hp.
  - intros s -> Hp. subst message. cbn in Hp |- *. by rewrite Hp.
Qed.

Lemma emit_outcome_witness :
  emit format_body publish_ok sample_record sample_world =
    (Ok {| log_timestamp := 1700000000; log_msg := "order placed"; level_no := 20;
           level_name := "INFO"; logger_name := "hummingbot.strategy" |},
     mk_world 1700000000
       [{| log_timestamp := 1700000000; log_msg := "order placed"; level_no := 20;
           level_name := "INFO"; logger_name := "hummingbot.strategy" |}]) /\
  emit format_body publish_fails sample_record sample_world =
    (Raise (mk_exn RuntimeError "not connected"),
     mk_world 1700000000
       [{| log_timestamp := 1700000000; log_msg := "order placed"; level_no := 20;
           level_name := "INFO"; logger_name := "hummingbot.strategy" |}]) /\
  emit format_fails publish_ok sample_record sample_world =
    (Raise (mk_exn TypeError "not all arguments converted during string formatting"),
     sample_world).
Proof.
  split; [| split].
  - destruct (emit_outcome format_body publish_ok sample_record sample_world)
      as (_ & _ & Hok). exact (Hok "order placed"%string eq_refl eq_refl).
  - destruct (emit_outcome format_body publish_fails sample_record sample_world)
      as (_ & Hpub & _). exact (Hpub "order placed"%string _ eq_refl eq_refl).
  - destruct (emit_outcome format_fails publish_ok sample_record sample_world)
      as (Hfmt & _). exact (Hfmt _ eq_refl).
Defined.

End LogHandlerSpec.

(** * The command dispatcher: what the handlers do with the application *)

Module CommandsExtra.

Import MQTTCommands.
Local Open Scope list_scope.

(** The pairs whose [config(key, value)] call returned, in call order. *)
Fixpoint applied (l : trace) : list (string * pyval) :=
  match l with
  | [] => []
  | (CConfig k v, Returned) :: l' => (k, v) :: applied l'
  | _ :: l' => applied l'
  end.

(** The calls the loop of the config handler may make. *)
Definition is_config_call (co : call * outcome) : Prop :=
  match fst co with
  | CConfigurableKeys | CConfig _ _ => True
  | _ => False
  end.

(** The allow-listed pairs of a parameter list, in order. *)
Definition allow_listed (keys : list string) (ps : list (string * pyval))
  : list (string * pyval) :=
  filter (fun p => fst p ∈ keys) ps.

Lemma applied_app l1 l2 : applied (l1 ++ l2) = applied l1 ++ applied l2.
Proof.
  induction l1 as [| [c o] l1 IH]; [reflexivity |].
  destruct c, o; cbn; rewrite ?IH; reflexivity.
Qed.

(** The loop of the config handler: it only looks up the keys and applies
    pairs, and the [changes] list grows by the pairs applied, whether the
    loop ends or raises. *)
Lemma config_loop_changes app ps :
  forall st r st',
    for_each ps (config_step app) st = (r, st') ->
    exists l,
      calls st' = calls st ++ l /\
      payload (response st') = payload (response st) ++ applied l /\
      Forall is_config_call l.
Proof.
  induction ps as [| p ps IH]; intros st r st' H.
  - cbn in H. inversion H; subst. exists []. rewrite !app_nil_r.
    repeat split. constructor.
  - cbn [for_each] in H. unfold bind at 1 in H. unfold config_step at 1 in H.
    unfold bind, invoke, when, update, modify in H.
    destruct (configurable_keys app (calls st)) as [keys | e] eqn:Hk; cbn in H.
    2:{ inversion H; subst. exists [(CConfigurableKeys, Raised e)]. cbn.
        rewrite app_nil_r. repeat split. repeat constructor. }
    destruct (bool_decide (p.1 ∈ keys)); cbn in H.
    + destruct (config app _ p.1 p.2) as [[] | e] eqn:Hc; cbn in H.
      2:{ inversion H; subst.
          exists [(CConfigurableKeys, Returned); (CConfig p.1 p.2, Raised e)].
          cbn. rewrite app_nil_r, <- app_assoc. repeat split. repeat constructor. }
      apply IH in H as (l & Hc' & Hp & Hall). cbn in Hc', Hp.
      exists ((CConfigurableKeys, Returned) :: (CConfig p.1 p.2, Returned) :: l).
      rewrite Hc', Hp. cbn. rewrite <- !app_assoc. repeat split.
      repeat constructor; done.
    + apply IH in H as (l & Hc' & Hp & Hall). cbn in Hc', Hp.
      exists ((CConfigurableKeys, Returned) :: l).
      rewrite Hc', Hp. cbn. rewrite <- !app_assoc. repeat split.
      repeat constructor; done.
Qed.

(** The same for the whole handler. *)
Lemma config_handler_changes app (req : ConfigRequest) tr res tr' :
  _on_cmd_config app req tr = (res, tr') ->
  exists l,
    tr' = tr ++ l /\
    (forall r, res = Ok r -> payload r = applied l) /\
    (forall t o, (CNotify t, o) ∉ l).
Proof.
  unfold _on_cmd_config, handler, try_except.
  destruct (length (params req) =? 0)%nat.
  - unfold invoke. cbn. intros H.
    exists [(CConfigInteractive, outcome_of (config_interactive app tr))].
    destruct (config_interactive app tr) as [[] | e]; cbn in H |- *;
      [| destruct (is_Exception e); cbn in H]; inversion H; subst; cbn;
      (split; [reflexivity |]); (split; [intros r Hr; by inversion Hr |]);
      intros t o Hin; apply list_elem_of_singleton in Hin; discriminate.
  - destruct (for_each (params req) (config_step app) _) as [r0 st'] eqn:Hloop.
    apply config_loop_changes in Hloop as (l & Hc & Hp & Hall). cbn in Hc, Hp.
    intros H. exists l.
    destruct r0 as [[] | e]; [| destruct (is_Exception e); cbn in H];
      inversion H; subst; cbn;
      (split; [exact Hc |]);
      (split; [intros r Hr; inversion Hr; subst; exact Hp |]);
      intros t o Hin; rewrite Forall_forall in Hall; apply (Hall _ Hin).
Qed.

(** The pairs the loop applied are taken from the parameter list, in its
    order. *)
Lemma config_loop_sublist app ps :
  forall st r st',
    for_each ps (config_step app) st = (r, st') ->
    applied (drop (length (calls st)) (calls st')) `sublist_of` ps.
Proof.
  induction ps as [| p ps IH]; intros st r st' H.
  - cbn in H. inversion H; subst. by rewrite drop_all.
  - cbn [for_each] in H. unfold bind at 1 in H. unfold config_step at 1 in H.
    unfold bind, invoke, when, update, modify in H.
    destruct (configurable_keys app (calls st)) as [keys | e] eqn:Hk; cbn in H.
    2:{ inversion H; subst. cbn. rewrite drop_app_length. cbn. apply sublist_nil_l. }
    destruct (bool_decide (p.1 ∈ keys)); cbn in H.
    + destruct (config app _ p.1 p.2) as [[] | e] eqn:Hc; cbn in H.
      2:{ inversion H; subst. cbn. rewrite <- app_assoc, drop_app_length. cbn.
          apply sublist_nil_l. }
      pose proof H as Hloop.
      apply config_loop_changes in Hloop as (l & Hc' & _). cbn in Hc'.
      apply IH in H. cbn in H. rewrite Hc' in H |- *.
      rewrite drop_app_length in H. rewrite <- !app_assoc, drop_app_length. cbn.
      destruct p. by apply sublist_skip.
    + pose proof H as Hloop.
      apply config_loop_changes in Hloop as (l & Hc' & _). cbn in Hc'.
      apply IH in H. cbn in H. rewrite Hc' in H |- *.
      rewrite drop_app_length in H. rewrite <- !app_assoc, drop_app_length. cbn.
      by apply sublist_cons.
Qed.

(** X2.  Whatever the application does, when the config handler returns
    its [changes] list holds exactly the pairs whose [config(key, value)]
    call returned, in call order, and these are taken from the request's
    parameters in their order: a pair that was skipped, or whose
    application raised, is never reported as a change. *)
Theorem changes_are_applied_pairs app (req : ConfigRequest) tr r tr' :
  _on_cmd_config app req tr = (Ok r, tr') ->
  payload r = applied (new_calls tr tr') /\
  payload r `sublist_of` params req.
Proof.
  intros H. pose proof H as H0.
  apply config_handler_changes in H0 as (l & -> & Hp & _).
  unfold new_calls. rewrite drop_app_length.
  rewrite (Hp r eq_refl). split; [reflexivity |].
  revert H. unfold _on_cmd_config, handler, try_except.
  destruct (length (params req) =? 0)%nat eqn:Hlen.
  - unfold invoke. cbn. intros H.
    destruct (config_interactive app tr) as [[] | e]; cbn in H;
      [| destruct (is_Exception e); cbn in H]; inversion H as [[Hr Hl]];
      apply app_inv_head in Hl; subst l; cbn; apply sublist_nil_l.
  - destruct (for_each (params req) (config_step app) _) as [r0 st'] eqn:Hloop.
    apply config_loop_sublist in Hloop. cbn in Hloop. intros H.
    assert (Hcalls : calls st' = tr ++ l).
    { destruct r0 as [[] | e]; [| destruct (is_Exception e); cbn in H];
        by inversion H. }
    rewrite Hcalls, drop_app_length in Hloop. exact Hloop.
Qed.

Lemma changes_are_applied_pairs_witness :
  let r := {| status := ERROR; msg := "bad value";
              payload := [("k1"%string, VInt 1)] |} in
  payload r = [("k1"%string, VInt 1)] /\
  payload r `sublist_of` [("k1", VInt 1); ("zz", VInt 0); ("k2", VInt 2)]%string.
Proof.
  cbv zeta.
  exact (changes_are_applied_pairs app_second_config_fails
           {| params := [("k1", VInt 1); ("zz", VInt 0); ("k2", VInt 2)]%string |}
           [] _ _ eq_refl).
Defined.

(** With a fixed allow-list and no failure, the loop applies the
    allow-listed pairs and nothing else. *)
Lemma config_loop_success app keys ps :
  (forall tr, configurable_keys app tr = Ok keys) ->
  (forall tr k v, config app tr k v = Ok tt) ->
  forall st, exists st',
    for_each ps (config_step app) st = (Ok tt, st') /\
    status (response st') = status (response st) /\
    msg (response st') = msg (response st) /\
    payload (response st') = payload (response st) ++ allow_listed keys ps.
Proof.
  intros Hkeys Hconfig. induction ps as [| p ps IH]; intros st.
  - exists st. cbn. by rewrite app_nil_r.
  - cbn [for_each]. unfold bind at 1. unfold config_step at 1.
    unfold bind, invoke, when, update, modify. rewrite Hkeys. cbn.
    unfold allow_listed.
    destruct (decide (p.1 ∈ keys)) as [Hin | Hout].
    + rewrite (bool_decide_eq_true_2 _ Hin). cbn. rewrite Hconfig. cbn.
      match goal with |- context [for_each ps _ ?s] =>
        destruct (IH s) as (st' & -> & Hs & Hm & Hp) end.
      exists st'. cbn in Hs, Hm, Hp. rewrite Hp. unfold allow_listed.
      rewrite <- app_assoc. by destruct p.
    + rewrite (bool_decide_eq_false_2 _ Hout). cbn.
      match goal with |- context [for_each ps _ ?s] =>
        destruct (IH s) as (st' & -> & Hs & Hm & Hp) end.
      exists st'. cbn in Hs, Hm, Hp. by rewrite Hp.
Qed.

(** X1.  For an application whose allow-list is [keys] and whose
    configuration operations do not fail, the config handler answers [OK]
    with, as [changes], the allow-listed pairs of the request in their
    order; exactly these pairs are applied, pairs with other keys being
    skipped silently; and the interactive flow is started exactly when the
    request has no parameter. *)
Theorem config_applies_allow_listed app keys (req : ConfigRequest) tr :
  (forall tr, config_interactive app tr = Ok tt) ->
  (forall tr, configurable_keys app tr = Ok keys) ->
  (forall tr k v, config app tr k v = Ok tt) ->
  exists tr',
    _on_cmd_config app req tr =
      (Ok {| status := OK; msg := ""; payload := allow_listed keys (params req) |}, tr') /\
    applied (new_calls tr tr') = allow_listed keys (params req) /\
    ((CConfigInteractive, Returned) ∈ new_calls tr tr' <-> params req = []).
Proof.
  intros Hinter Hkeys Hconfig.
  assert (Hrun : exists tr', _on_cmd_config app req tr =
            (Ok {| status := OK; msg := ""; payload := allow_listed keys (params req) |}, tr') /\
            ((CConfigInteractive, Returned) ∈ new_calls tr tr' <-> params req = [])).
  { unfold _on_cmd_config, handler, try_except.
    destruct (params req) as [| p ps] eqn:Hps.
    - cbn. unfold invoke. rewrite Hinter. cbn. eexists. split; [reflexivity |].
      unfold new_calls. rewrite drop_app_length. split; [done |].
      intros _. apply list_elem_of_here.
    - cbn [length Nat.eqb].
      destruct (config_loop_success app keys (p :: ps) Hkeys Hconfig
                  (mk_frame (new_response []) tr)) as (st' & Hloop & Hs & Hm & Hp).
      rewrite Hloop. cbn in Hs, Hm, Hp.
      apply config_loop_changes in Hloop as (l & Hc & _ & Hall). cbn in Hc.
      exists (calls st'). split.
      + destruct st' as [[s m pl] cs]. cbn in *. by subst.
      + rewrite Hc. unfold new_calls. rewrite drop_app_length. split; [| done].
        intros Hin. rewrite Forall_forall in Hall. destruct (Hall _ Hin). }
  destruct Hrun as (tr' & Hrun & Hinteractive). exists tr'.
  split; [exact Hrun |]. split; [| exact Hinteractive].
  pose proof Hrun as Hch. apply config_handler_changes in Hch as (l & -> & Hp & _).
  unfold new_calls. rewrite drop_app_length. symmetry. exact (Hp _ eq_refl).
Qed.

Lemma config_applies_allow_listed_witness :
  exists tr',
    _on_cmd_config app_ok
      {| params := [("k1", VInt 1); ("zz", VInt 0); ("k2", VInt 2)]%string |} [] =
      (Ok {| status := OK; msg := "";
             payload := [("k1", VInt 1); ("k2", VInt 2)]%string |}, tr') /\
    applied (new_calls [] tr') = [("k1", VInt 1); ("k2", VInt 2)]%string /\
    ((CConfigInteractive, Returned) ∈ new_calls [] tr' <->
     [("k1", VInt 1); ("zz", VInt 0); ("k2", VInt 2)]%string = []).
Proof.
  exact (config_applies_allow_listed app_ok ["k1"; "k2"]%string
           {| params := [("k1", VInt 1); ("zz", VInt 0); ("k2", VInt 2)]%string |} []
           (fun _ => eq_refl) (fun _ => eq_refl) (fun _ _ _ => eq_refl)).
Defined.

Import CommandsSpec.

(** X3.  For every command, a response that is returned has status
    [ERROR] exactly when one of the application calls made for it raised;
    a response with status [OK] has an empty message. *)
Theorem status_error_iff_call_raised app c (req : Request c) tr r tr' :
  on_request app c req tr = (Ok r, tr') ->
  (status r = ERROR <-> exists cl e, (cl, Raised e) ∈ new_calls tr tr') /\
  (status r = OK -> msg r = ""%string).
Proof.
  destruct c; cbn in req, r |- *.
  3:{ intros H. apply config_handler_trace in H as
        [(l & -> & Hall & r0 & [= <-] & Hs & Hm) | (l & cl & e & -> & Hall & _ & Hres)];
        rewrite new_calls_app.
      - split; [| done]. rewrite Hs. split; [done |].
        intros (cl & e & Hin). destruct (all_returned_no_raise _ _ _ Hall Hin).
      - destruct (is_Exception e); [| discriminate].
        destruct Hres as (r0 & [= <-] & Hs & Hm). rewrite Hs. split; [| done].
        split; [| done]. intros _. exists cl, e. apply elem_of_app. right.
        apply list_elem_of_here. }
  all: run_handler; intros H; split_calls H; inversion H; subst; clear H;
    rewrite <- ?app_assoc, ?new_calls_app, ?new_calls_refl; cbn;
    (split; [split | done]);
    first [ done
          | intros (cl & e0 & Hin); pick_entry Hin; done
          | intros _; eexists _, _; find_entry ].
Qed.

Lemma status_error_iff_call_raised_witness :
  (status {| status := ERROR; msg := "database locked"; payload := @nil pyval |} = ERROR <->
   exists cl e,
     (cl, Raised e) ∈ new_calls []
        [(CHistory 1 false None, Returned); (CGetHistoryTrades 1, Returned);
         (CTradesAll, Raised (mk_exn RuntimeError "database locked"))]) /\
  (status {| status := ERROR; msg := "database locked"; payload := @nil pyval |} = OK ->
   msg {| status := ERROR; msg := "database locked"; payload := @nil pyval |} = ""%string).
Proof.
  exact (status_error_iff_call_raised app_trades_fail History history_request []
           _ _ eq_refl).
Defined.

(** X4.  The notification path of the application is used by the import
    handler only, and only to forward the message of an [Exception] that
    the import raised: whenever a handler calls [notify(text)], the command
    is the import, the import call raised an error deriving from
    [Exception], and [text] is that error's message. *)
Theorem notify_only_on_import_failure app c (req : Request c) tr res tr' text o :
  on_request app c req tr = (res, tr') ->
  (CNotify text, o) ∈ new_calls tr tr' ->
  c = ImportStrategy /\
  exists file e,
    (CImportCommand file, Raised e) ∈ new_calls tr tr' /\
    is_Exception e = true /\
    text = exn_str e.
Proof.
  destruct c; cbn in req |- *.
  3:{ intros H Hin. apply config_handler_changes in H as (l & -> & _ & Hno).
      rewrite new_calls_app in Hin. destruct (Hno _ _ Hin). }
  all: run_handler; intros H Hin; split_calls H; inversion H; subst; clear H;
    trace_suffix Hin; pick_entry Hin;
    (split; [reflexivity |]); eexists _, _;
    rewrite <- ?app_assoc, ?new_calls_app;
    (split; [find_entry | by split]).
Qed.

Lemma notify_only_on_import_failure_witness :
  ImportStrategy = ImportStrategy /\
  exists file e,
    (CImportCommand file, Raised e) ∈
      new_calls [] [(CImportCommand "pmm.yml", Raised (mk_exn RuntimeError "boom"));
                    (CNotify "boom", Returned)] /\
    is_Exception e = true /\
    "boom"%string = exn_str e.
Proof.
  apply (notify_only_on_import_failure app_down_notify_ok ImportStrategy
           {| strategy := Some "pmm"%string |} [] _ _ "boom"%string Returned eq_refl).
  vm_compute. apply list_elem_of_further, list_elem_of_here.
Defined.

(** X5.  The history handler fetches the trade records only after the
    history display returned, calls [all()] only on a result that is
    truthy, and answers with records only when all three calls returned,
    the records being what [all()] gave. *)
Theorem history_calls_in_order app (req : HistoryRequest) tr res tr' :
  _on_cmd_history app req tr = (res, tr') ->
  (forall o, (CGetHistoryTrades (days req), o) ∈ new_calls tr tr' ->
     (CHistory (days req) (verbose req) (precision req), Returned) ∈ new_calls tr tr') /\
  (forall o, (CTradesAll, o) ∈ new_calls tr tr' ->
     exists trades,
       get_history_trades app
         (tr ++ [(CHistory (days req) (verbose req) (precision req), Returned)])
         (days req) = Ok trades /\
       truthy trades = true) /\
  (forall r, res = Ok r -> payload r <> [] ->
     new_calls tr tr' =
       [(CHistory (days req) (verbose req) (precision req), Returned);
        (CGetHistoryTrades (days req), Returned);
        (CTradesAll, Returned)] /\
     trades_all app
       (tr ++ [(CHistory (days req) (verbose req) (precision req), Returned);
               (CGetHistoryTrades (days req), Returned)]) = Ok (payload r)).
Proof.
  run_handler. intros H. split_calls H; inversion H; subst; clear H;
    rewrite <- ?app_assoc, ?new_calls_app; cbn;
    (split; [| split]);
    try (intros o Hin; pick_entry Hin; try find_entry; eauto; fail);
    try (intros r [= <-]; cbn; done).
  intros r [= <-] _. cbn. split; [reflexivity |].
  rewrite <- app_assoc in *. cbn in *. done.
Qed.

Lemma history_calls_in_order_witness :
  new_calls [] (snd (_on_cmd_history app_ok history_request [])) =
    [(CHistory 1 false None, Returned); (CGetHistoryTrades 1, Returned);
     (CTradesAll, Returned)] /\
  trades_all app_ok [(CHistory 1 false None, Returned); (CGetHistoryTrades 1, Returned)]
    = Ok [VInt 7].
Proof.
  destruct (history_calls_in_order app_ok history_request [] _ _ eq_refl)
    as (_ & _ & Hrecords).
  apply (Hrecords _ eq_refl). discriminate.
Defined.

End CommandsExtra.

(** * The event forwarder: ordering, registration, labels *)

Module ForwarderExtra.

Import MQTTEventForwarder.
Local Open Scope list_scope.

(** The (market, event) pairs a sequence of actions registered, and the
    pairs it de-registered, in order. *)
Fixpoint added (l : list action) : list (string * MarketEvent) :=
  match l with
  | [] => []
  | AddListener market event :: l' => (market, event) :: added l'
  | _ :: l' => added l'
  end.

Fixpoint removed (l : list action) : list (string * MarketEvent) :=
  match l with
  | [] => []
  | RemoveListener market event :: l' => (market, event) :: removed l'
  | _ :: l' => removed l'
  end.

(** Every market paired with every event of [_market_event_pairs], market
    by market. *)
Definition registrations (markets : list string) : list (string * MarketEvent) :=
  flat_map (fun market => map (pair market) _market_event_pairs) markets.

(** The actions added to [before] to reach [after]. *)
Definition new_actions (before after : world) : list action :=
  drop (length (actions before)) (actions after).

(** The collaborator calls of [start_event_listener] and of
    [stop_event_listener] when none of them raises, in order: market by
    market, and for each market event by event. *)
Definition start_calls (markets : list string) : list action :=
  flat_map (fun market =>
    flat_map (fun e => [AddListener market e; LogInfo e]) _market_event_pairs) markets.

Definition stop_calls (markets : list string) : list action :=
  flat_map (fun market =>
    flat_map (fun e => [RemoveListener market e]) _market_event_pairs) markets.

(** The given calls made one after the other, up to the first that raises. *)
Definition perform_all (collaborator : list action -> action -> result unit)
  (l : list action) : M world unit :=
  for_each l (perform collaborator).

(** Collaborators that always return; a logger that raises; a broker that
    refuses the publisher. *)
Definition collaborators_ok : list action -> action -> result unit :=
  fun _ _ => Ok tt.

Definition logger_fails : list action -> action -> result unit :=
  fun _ a => match a with
             | LogInfo _ => Raise (mk_exn RuntimeError "logging failed")
             | _ => Ok tt
             end.

Definition broker_down : list action -> action -> result unit :=
  fun _ a => match a with
             | CreatePublisher _ => Raise (mk_exn RuntimeError "not connected")
             | _ => Ok tt
             end.

Section Order.

Variable value : MarketEvent -> Z.
Variable int_of_str : string -> option Z.
Variable publish_outcome : list (thread * EventMessage) -> EventMessage -> result unit.

(** Events fired one after the other, each from a thread of its own that
    is not the main one. *)
Fixpoint fire_all (events : list (nat * callback)) (w : world) : world :=
  match events with
  | [] => w
  | (ident, cb) :: rest =>
      fire_all rest
        (snd (_send_mqtt_event value int_of_str publish_outcome (WorkerThread ident)
                (cb_event_tag cb) (cb_pubsub cb) (cb_event cb) w))
  end.

(** The event loop runs [n] scheduled callbacks. *)
Fixpoint drain (n : nat) (w : world) : world :=
  match n with
  | O => w
  | S n' => drain n' (snd (run_callback value int_of_str publish_outcome w))
  end.

(** The same events handled one after the other on the main thread. *)
Fixpoint handle_all (events : list callback) (w : world) : world :=
  match events with
  | [] => w
  | cb :: rest =>
      handle_all rest
        (snd (_send_mqtt_event value int_of_str publish_outcome MainThread
                (cb_event_tag cb) (cb_pubsub cb) (cb_event cb) w))
  end.

End Order.

Import ForwarderSpec.

Section OrderFacts.

Variable value : MarketEvent -> Z.
Variable int_of_str : string -> option Z.
Variable publish_outcome : list (thread * EventMessage) -> EventMessage -> result unit.

Local Abbreviation send := (_send_mqtt_event value int_of_str publish_outcome).

Lemma with_queue_same w : with_queue (loop_queue w) w = w.
Proof. by destruct w. Qed.

(** Firing from other threads only fills the queue, in firing order. *)
Lemma fire_all_queue events w :
  fire_all value int_of_str publish_outcome events w =
    with_queue (loop_queue w ++ map snd events) w.
Proof.
  revert w. induction events as [| [ident cb] events IH]; intros w.
  - cbn. by rewrite app_nil_r, with_queue_same.
  - cbn [fire_all]. rewrite IH. unfold _send_mqtt_event. cbn.
    unfold with_queue. cbn. rewrite <- app_assoc. by destruct cb.
Qed.

(** What the normalisation gives does not depend on the world. *)
Lemma event_data_of_any_world event w1 w2 :
  fst (event_data_of event w1) = fst (event_data_of event w2).
Proof.
  unfold event_data_of, try_except, lift.
  destruct (is_dataclass event); [reflexivity |].
  destruct (is_tuple event && has__fields event); [reflexivity |].
  destruct (dict event) as [d | e]; [reflexivity |].
  destruct (is_TypeError_or_ValueError e); reflexivity.
Qed.

(** On the main thread the handler neither reads nor writes the queue. *)
Lemma send_main_with_queue q event_tag pubsub event w :
  snd (send MainThread event_tag pubsub event (with_queue q w)) =
    with_queue q (snd (send MainThread event_tag pubsub event w)).
Proof.
  rewrite !send_main_eq.
  rewrite (event_data_of_any_world event (with_queue q w) w).
  destruct (fst (event_data_of event w)) as [d | e]; [| reflexivity].
  cbn zeta. cbn [with_queue wall_clock].
  destruct (int int_of_str _) as [n | e]; reflexivity.
Qed.

Lemma drain_queue q :
  forall w, loop_queue w = [] ->
    drain value int_of_str publish_outcome (length q) (with_queue q w) =
      handle_all value int_of_str publish_outcome q w.
Proof.
  induction q as [| cb q IH]; intros w Hq.
  - cbn. rewrite <- Hq. apply with_queue_same.
  - cbn [length drain handle_all]. unfold run_callback at 1.
    cbn [with_queue loop_queue snd wall_clock published actions].
    change (mk_world (wall_clock w) (published w) q (actions w)) with (with_queue q w).
    rewrite send_main_with_queue. apply IH.
    by rewrite send_main_queue.
Qed.

(** X7.  Events fired from threads other than the main one, while no
    callback is pending, are only queued, in firing order; when the event
    loop then runs as many callbacks as were queued, the world is the one
    reached by handling the same events, in the same order, on the main
    thread: submission order is publication order. *)
Theorem hops_preserve_order events w :
  loop_queue w = [] ->
  published (fire_all value int_of_str publish_outcome events w) = published w /\
  loop_queue (fire_all value int_of_str publish_outcome events w) = map snd events /\
  drain value int_of_str publish_outcome (length events)
    (fire_all value int_of_str publish_outcome events w) =
    handle_all value int_of_str publish_outcome (map snd events) w.
Proof.
  intros Hq. rewrite fire_all_queue, Hq. cbn [app].
  split; [reflexivity |]. split; [reflexivity |].
  rewrite <- (length_map snd events). by apply drain_queue.
Qed.

(** X6.  Whatever the thread, the payload and the identifier, a message
    handed to the publisher by the handler has no [timestamp] key in its
    data. *)
Theorem published_data_has_no_timestamp cur event_tag pubsub event w t m :
  (t, m) ∈ published (snd (_send_mqtt_event value int_of_str publish_outcome
                             cur event_tag pubsub event w)) ->
  (t, m) ∈ published w \/ ev_data m !! "timestamp" = None.
Proof.
  destruct cur as [| ident]; [| by left].
  rewrite send_main_eq.
  destruct (fst (event_data_of event w)) as [d | e]; [| by left].
  cbn zeta. destruct (int int_of_str _) as [n | e]; [| by left].
  cbn. intros [Hin | Hin]%elem_of_app; [by left |]. right.
  apply list_elem_of_singleton in Hin. inversion Hin; subst. cbn.
  destruct (d !! "timestamp") as [v |] eqn:Hd; cbn; [apply lookup_delete_eq | exact Hd].
Qed.

(** X12.  On the main thread one call hands at most one message to the
    publisher; it hands none exactly when it raises before publishing,
    which happens exactly when the normalisation of the payload raises or
    the timestamp does not convert to an integer.  The event is then lost:
    nothing else in the world records it. *)
Theorem event_lost_iff_handler_raises_early event_tag pubsub event w :
  let run := send MainThread event_tag pubsub event w in
  let early e :=
    fst (event_data_of event w) = Raise e \/
    exists d, fst (event_data_of event w) = Ok d /\
              int int_of_str (match d !! "timestamp" with
                              | Some v => v
                              | None => VFloat (wall_clock w)
                              end) = Raise e in
  (published (snd run) = published w \/
   exists m, published (snd run) = published w ++ [(MainThread, m)]) /\
  (published (snd run) = published w <-> exists e, early e) /\
  (forall e, early e -> run = (Raise e, w)).
Proof.
  intros run early. subst run early. rewrite send_main_eq.
  destruct (fst (event_data_of event w)) as [d | e0].
  - cbn zeta.
    assert (Hts : (match d !! "timestamp" with
                   | Some v => (v, delete "timestamp" d)
                   | None => (VFloat (wall_clock w), d)
                   end).1 =
                  match d !! "timestamp" with
                  | Some v => v
                  | None => VFloat (wall_clock w)
                  end) by (destruct (d !! "timestamp"); reflexivity).
    rewrite Hts.
    destruct (int int_of_str _) as [n | e0] eqn:Hint; cbn.
    + split; [right; eexists; reflexivity |]. split.
      * split.
        -- intros Heq. apply (f_equal length) in Heq. rewrite length_app in Heq.
           cbn in Heq. lia.
        -- intros (e & [Hr | (d' & [= <-] & Hr)]); congruence.
      * intros e [Hr | (d' & [= <-] & Hr)]; congruence.
    + split; [by left |]. split.
      * split; [| done]. intros _. exists e0. right. by exists d.
      * intros e [Hr | (d' & [= <-] & Hr)]; [discriminate | congruence].
  - cbn. split; [by left |]. split.
    + split; [| done]. intros _. exists e0. by left.
    + intros e [[= <-] | (d' & Hr & _)]; [reflexivity | discriminate].
Qed.

(** Every member is in the list of subscribed events. *)
Lemma every_member_subscribed e : e ∈ _market_event_pairs.
Proof.
  destruct e; unfold _market_event_pairs;
    repeat first [apply list_elem_of_here | apply list_elem_of_further].
Qed.

(** An identifier is the value of a listed event, or of none. *)
Lemma tag_listed_or_not (tag : Z) (l : list MarketEvent) :
  (exists e, e ∈ l /\ tag = value e) \/ (forall e, e ∈ l -> tag <> value e).
Proof.
  induction l as [| x l [(e & Hin & He) | Hnone]].
  - right. intros e Hin. by apply elem_of_nil in Hin.
  - left. exists e. split; [by apply list_elem_of_further | exact He].
  - destruct (decide (tag = value x)) as [Hx | Hx].
    + left. exists x. split; [apply list_elem_of_here | exact Hx].
    + right. intros e [-> | Hin]%elem_of_cons; [exact Hx | by apply Hnone].
Qed.

(** X10.  The list of events the forwarder subscribes to has no repeated
    entry, and it covers the label table exactly: an identifier has a label
    other than ["Unknown"] if and only if it is the value of a subscribed
    event, and the label is then that event's name.  An event the
    forwarder subscribed to is never published as ["Unknown"]. *)
Theorem subscribed_events_are_labelled :
  (forall a b, value a = value b -> a = b) ->
  NoDup _market_event_pairs /\
  (forall e, e ∈ _market_event_pairs -> label value (value e) = name e) /\
  (forall tag, label value tag <> "Unknown"%string <->
               exists e, e ∈ _market_event_pairs /\ tag = value e).
Proof.
  intros Hinj. split; [| split].
  - unfold _market_event_pairs.
    repeat (apply NoDup_cons; split;
            [ intros Hin; repeat (apply elem_of_cons in Hin as [Hin | Hin]; [discriminate |]);
              by apply elem_of_nil in Hin |]).
    apply NoDup_nil_2.
  - intros e _. unfold label. by rewrite (event_types_member value Hinj).
  - intros tag. split.
    + intros Hlabel.
      destruct (tag_listed_or_not tag _market_event_pairs) as [Hyes | Hno]; [exact Hyes |].
      exfalso. apply Hlabel. unfold label.
      rewrite (event_types_other value); [reflexivity |].
      intros e. apply Hno, every_member_subscribed.
    + intros (e & _ & ->). unfold label. rewrite (event_types_member value Hinj). cbn.
      destruct e; discriminate.
Qed.

End OrderFacts.

Section Listeners.

Variable collaborator : list action -> action -> result unit.

Lemma bind_unit_ret (m : M world unit) w : bind m (fun _ => ret tt) w = m w.
Proof. unfold bind, ret. by destruct (m w) as [[[] | e] w']. Qed.

Lemma perform_all_app l1 l2 :
  forall w, perform_all collaborator (l1 ++ l2) w =
            bind (perform_all collaborator l1) (fun _ => perform_all collaborator l2) w.
Proof.
  unfold perform_all. induction l1 as [| a l1 IH]; intros w; [reflexivity |].
  cbn [app for_each]. unfold bind in *.
  destruct (perform collaborator a w) as [[[] | e] w']; [apply IH | reflexivity].
Qed.

(** A loop whose body makes a list of calls makes the calls of all its
    rounds, up to the first that raises. *)
Lemma for_each_calls {A} (f : A -> list action) (body : A -> M world unit) xs :
  (forall x w, body x w = perform_all collaborator (f x) w) ->
  forall w, for_each xs body w = perform_all collaborator (flat_map f xs) w.
Proof.
  intros Hbody. induction xs as [| x xs IH]; intros w; [reflexivity |].
  cbn [for_each flat_map]. rewrite perform_all_app. unfold bind. rewrite Hbody.
  destruct (perform_all collaborator (f x) w) as [[[] | e] w']; [apply IH | reflexivity].
Qed.

Lemma start_event_listener_calls self w :
  start_event_listener collaborator self w =
    perform_all collaborator (start_calls (_markets self)) w.
Proof.
  unfold start_event_listener, _app_event_pairs. cbn [for_each].
  rewrite bind_unit_ret. unfold start_calls.
  apply (for_each_calls
           (fun market => flat_map (fun e => [AddListener market e; LogInfo e])
                                   _market_event_pairs)).
  intros market w0.
  apply (for_each_calls (fun e => [AddListener market e; LogInfo e])).
  intros e w1. unfold perform_all. cbn [for_each]. unfold bind, ret.
  destruct (perform collaborator (AddListener market e) w1) as [[[] | e0] w2]; [| reflexivity].
  by destruct (perform collaborator (LogInfo e) w2) as [[[] | e1] w3].
Qed.

Lemma stop_event_listener_calls self w :
  stop_event_listener collaborator self w =
    perform_all collaborator (stop_calls (_markets self)) w.
Proof.
  unfold stop_event_listener, _app_event_pairs. cbn [for_each].
  rewrite bind_unit_ret. unfold stop_calls.
  apply (for_each_calls
           (fun market => flat_map (fun e => [RemoveListener market e])
                                   _market_event_pairs)).
  intros market w0.
  apply (for_each_calls (fun e => [RemoveListener market e])).
  intros e w1. unfold perform_all. cbn [for_each]. unfold bind, ret.
  by destruct (perform collaborator (RemoveListener market e) w1) as [[[] | e0] w2].
Qed.

Lemma perform_all_cons a l w :
  perform_all collaborator (a :: l) w =
    match collaborator (actions w) a with
    | Ok _ => perform_all collaborator l (act a w)
    | Raise e => (Raise e, act a w)
    end.
Proof.
  unfold perform_all. cbn [for_each]. unfold bind, perform at 1.
  by destruct (collaborator (actions w) a) as [[] | e].
Qed.

(** A sequence of calls changes the world by the calls it made, which are
    the first calls of the sequence: all of them when it returns, and
    those up to the one that raised when it raises. *)
Lemma perform_all_outcome l :
  forall w, exists made,
    snd (perform_all collaborator l w) =
      mk_world (wall_clock w) (published w) (loop_queue w) (actions w ++ made) /\
    made `prefix_of` l /\
    match fst (perform_all collaborator l w) with
    | Ok _ => made = l
    | Raise e => exists l1 a, made = l1 ++ [a] /\
                              collaborator (actions w ++ l1) a = Raise e
    end.
Proof.
  induction l as [| a l IH]; intros w.
  - exists []. cbn. rewrite app_nil_r. by destruct w.
  - rewrite perform_all_cons.
    destruct (collaborator (actions w) a) as [[] | e] eqn:Hcall.
    + destruct (IH (act a w)) as (made & Hw & Hpre & Hres).
      exists (a :: made). rewrite Hw. cbn [act wall_clock published loop_queue actions].
      rewrite <- app_assoc. split; [reflexivity |].
      split; [by apply prefix_cons |].
      destruct (fst (perform_all collaborator l (act a w))) as [[] | e].
      * by rewrite Hres.
      * destruct Hres as (l1 & b & -> & Hb). exists (a :: l1), b.
        split; [reflexivity |].
        cbn [act actions] in Hb. by rewrite <- app_assoc in Hb.
    + exists [a]. cbn. split; [reflexivity |].
      split; [apply prefix_cons, prefix_nil |].
      exists [], a. by rewrite app_nil_r.
Qed.

Lemma perform_all_returns l :
  (forall made a, collaborator made a = Ok tt) ->
  forall w, fst (perform_all collaborator l w) = Ok tt.
Proof.
  intros Hok. induction l as [| a l IH]; intros w; [reflexivity |].
  rewrite perform_all_cons, Hok. apply IH.
Qed.

Lemma new_actions_made w w' made :
  w' = mk_world (wall_clock w) (published w) (loop_queue w) (actions w ++ made) ->
  new_actions w w' = made.
Proof. intros ->. unfold new_actions. cbn. apply drop_app_length. Qed.

Lemma added_app l1 l2 : added (l1 ++ l2) = added l1 ++ added l2.
Proof. induction l1 as [| [] l1 IH]; cbn; rewrite ?IH; reflexivity. Qed.

Lemma removed_app l1 l2 : removed (l1 ++ l2) = removed l1 ++ removed l2.
Proof. induction l1 as [| [] l1 IH]; cbn; rewrite ?IH; reflexivity. Qed.

Lemma added_prefix l1 l2 : l1 `prefix_of` l2 -> added l1 `prefix_of` added l2.
Proof. intros [k ->]. rewrite added_app. by eexists. Qed.

Lemma removed_prefix l1 l2 : l1 `prefix_of` l2 -> removed l1 `prefix_of` removed l2.
Proof. intros [k ->]. rewrite removed_app. by eexists. Qed.

Lemma registrations_length markets :
  length (registrations markets) = (15 * length markets)%nat.
Proof.
  induction markets as [| m ms IH]; [reflexivity |].
  unfold registrations in *. cbn [flat_map]. rewrite length_app, IH. cbn. lia.
Qed.

(** The listeners the calls of the start loop register, and what they
    leave alone. *)
Lemma start_calls_added ms :
  added (start_calls ms) = registrations ms /\
  removed (start_calls ms) = [] /\
  forall topic, CreatePublisher topic ∉ start_calls ms.
Proof.
  unfold start_calls. induction ms as [| m ms (IHa & IHr & IHn)].
  - repeat split. intros topic Hin. by apply elem_of_nil in Hin.
  - cbn [flat_map]. rewrite added_app, removed_app, IHa, IHr.
    split; [reflexivity |]. split; [reflexivity |].
    intros topic [Hin | Hin]%elem_of_app; [| by apply (IHn topic)].
    cbn in Hin.
    repeat (apply elem_of_cons in Hin as [Hin | Hin]; [discriminate |]).
    by apply elem_of_nil in Hin.
Qed.

Lemma stop_calls_removed ms :
  removed (stop_calls ms) = registrations ms /\
  added (stop_calls ms) = [].
Proof.
  unfold stop_calls. induction ms as [| m ms [IHr IHa]]; [by split |].
  cbn [flat_map]. rewrite added_app, removed_app, IHa, IHr. by split.
Qed.

(** X8.  Whatever the collaborators do, the listeners [start_event_listener]
    registers are the first (market, event) pairs of the list that takes
    each market in turn with each of the fifteen events, and it
    de-registers nothing; the listeners [stop_event_listener] de-registers
    are the first pairs of the same list, and it registers nothing.  A
    start that returns registered the whole list and a stop that returns
    de-registered the whole list, in the same order: the two are
    symmetric.  One that raises made the call that raised last, and made
    no call after it, so the remaining listeners are not registered, or
    stay registered.  When no collaborator call raises, both return. *)
Theorem listeners_symmetric self w w0 :
  let started := start_event_listener collaborator self w in
  let stopped := stop_event_listener collaborator self w0 in
  (new_actions w (snd started) `prefix_of` start_calls (_markets self) /\
   added (new_actions w (snd started)) `prefix_of` registrations (_markets self) /\
   removed (new_actions w (snd started)) = []) /\
  (new_actions w0 (snd stopped) `prefix_of` stop_calls (_markets self) /\
   removed (new_actions w0 (snd stopped)) `prefix_of` registrations (_markets self) /\
   added (new_actions w0 (snd stopped)) = []) /\
  (fst started = Ok tt ->
   added (new_actions w (snd started)) = registrations (_markets self)) /\
  (fst stopped = Ok tt ->
   removed (new_actions w0 (snd stopped)) = registrations (_markets self)) /\
  (forall e, fst started = Raise e ->
     exists l a, new_actions w (snd started) = l ++ [a] /\
                 collaborator (actions w ++ l) a = Raise e) /\
  (forall e, fst stopped = Raise e ->
     exists l a, new_actions w0 (snd stopped) = l ++ [a] /\
                 collaborator (actions w0 ++ l) a = Raise e) /\
  ((forall made a, collaborator made a = Ok tt) ->
   fst started = Ok tt /\ fst stopped = Ok tt) /\
  length (registrations (_markets self)) = (15 * length (_markets self))%nat.
Proof.
  intros started stopped. subst started stopped.
  rewrite start_event_listener_calls, stop_event_listener_calls.
  destruct (perform_all_outcome (start_calls (_markets self)) w) as (m1 & Hw1 & Hp1 & Hr1).
  destruct (perform_all_outcome (stop_calls (_markets self)) w0) as (m2 & Hw2 & Hp2 & Hr2).
  rewrite (new_actions_made _ _ _ Hw1), (new_actions_made _ _ _ Hw2).
  destruct (start_calls_added (_markets self)) as (Ha1 & Hrm1 & _).
  destruct (stop_calls_removed (_markets self)) as (Hrm2 & Ha2).
  split; [| split; [| split; [| split; [| split; [| split; [| split]]]]]].
  - split; [exact Hp1 |]. split.
    + rewrite <- Ha1. by apply added_prefix.
    + apply removed_prefix in Hp1. rewrite Hrm1 in Hp1. by apply prefix_nil_inv in Hp1.
  - split; [exact Hp2 |]. split.
    + rewrite <- Hrm2. by apply removed_prefix.
    + apply added_prefix in Hp2. rewrite Ha2 in Hp2. by apply prefix_nil_inv in Hp2.
  - intros Hok. rewrite Hok in Hr1. by rewrite Hr1.
  - intros Hok. rewrite Hok in Hr2. by rewrite Hr2.
  - intros e He. rewrite He in Hr1. exact Hr1.
  - intros e He. rewrite He in Hr2. exact Hr2.
  - intros Hall. split; by apply perform_all_returns.
  - apply registrations_length.
Qed.

(** The constructor on the main thread, call by call. *)
Lemma init_on_main_thread uid markets w :
  __init__ collaborator MainThread uid markets w =
    match collaborator (actions w) (CreatePublisher ("hbot/" ++ uid ++ "/events")%string) with
    | Ok _ =>
        match perform_all collaborator (start_calls markets)
                (act (CreatePublisher ("hbot/" ++ uid ++ "/events")%string) w) with
        | (Ok _, w') =>
            (Ok {| _markets := markets; _topic := ("hbot/" ++ uid ++ "/events")%string |}, w')
        | (Raise e, w') => (Raise e, w')
        end
    | Raise e => (Raise e, act (CreatePublisher ("hbot/" ++ uid ++ "/events")%string) w)
    end.
Proof.
  unfold __init__. cbn [is_main_thread negb].
  change (replace EVENT_URI "$UID" uid) with ("hbot/" ++ uid ++ "/events")%string.
  cbn [_topic]. unfold bind at 1. unfold perform at 1.
  destruct (collaborator (actions w) _) as [[] | e0]; [| reflexivity].
  unfold bind. rewrite start_event_listener_calls. cbn [_markets].
  by destruct (perform_all collaborator (start_calls markets) _) as [[[] | e1] w1].
Qed.

(** X9.  On the main thread the constructor first asks for the publisher
    of the topic [hbot/<uid>/events], whatever characters the identifier
    holds, and for no other publisher; what it does next are the first
    calls of the start of the listeners.  It publishes nothing and
    schedules nothing.  If the publisher cannot be created the error
    leaves the constructor and no listener is registered.  A construction
    that returns gives the forwarder of that topic and of the given
    markets, with every market registered for every event; and the
    construction returns when no collaborator call raises. *)
Theorem init_creates_publisher_first uid markets w :
  let topic := ("hbot/" ++ uid ++ "/events")%string in
  let made := __init__ collaborator MainThread uid markets w in
  (exists rest,
     new_actions w (snd made) = CreatePublisher topic :: rest /\
     rest `prefix_of` start_calls markets /\
     (forall other, CreatePublisher other ∉ rest)) /\
  published (snd made) = published w /\
  loop_queue (snd made) = loop_queue w /\
  (forall e, collaborator (actions w) (CreatePublisher topic) = Raise e ->
     made = (Raise e, act (CreatePublisher topic) w)) /\
  (forall self, fst made = Ok self ->
     self = {| _markets := markets; _topic := topic |} /\
     new_actions w (snd made) = CreatePublisher topic :: start_calls markets /\
     added (new_actions w (snd made)) = registrations markets) /\
  ((forall l a, collaborator l a = Ok tt) ->
   fst made = Ok {| _markets := markets; _topic := topic |}).
Proof.
  intros topic made. subst made.
  rewrite init_on_main_thread. fold topic.
  destruct (start_calls_added markets) as (Hadd & _ & Hnone).
  destruct (collaborator (actions w) (CreatePublisher topic)) as [[] | e0] eqn:Hpub.
  - destruct (perform_all_outcome (start_calls markets) (act (CreatePublisher topic) w))
      as (m1 & Hw1 & Hp1 & Hr1).
    pose proof (perform_all_returns (start_calls markets)) as Hret.
    specialize (fun H => Hret H (act (CreatePublisher topic) w)).
    destruct (perform_all collaborator (start_calls markets) (act (CreatePublisher topic) w))
      as [[[] | e1] w1]; cbn [fst snd ret] in *; subst w1;
      cbn [act actions wall_clock published loop_queue] in *.
    + subst m1.
      rewrite (new_actions_made w _ (CreatePublisher topic :: start_calls markets))
        by (by rewrite <- app_assoc).
      split; [exists (start_calls markets); by repeat split |].
      split; [reflexivity |]. split; [reflexivity |].
      split; [discriminate |].
      split; [| reflexivity].
      intros self [= <-]. split; [reflexivity |]. split; [reflexivity |].
      exact Hadd.
    + rewrite (new_actions_made w _ (CreatePublisher topic :: m1))
        by (by rewrite <- app_assoc).
      split.
      { exists m1. split; [reflexivity |]. split; [exact Hp1 |].
        intros other Hin. apply (Hnone other). destruct Hp1 as [k ->].
        apply elem_of_app. by left. }
      split; [reflexivity |]. split; [reflexivity |].
      split; [discriminate |]. split; [discriminate |].
      intros Hall. specialize (Hret Hall). discriminate Hret.
  - cbn [fst snd].
    rewrite (new_actions_made w _ [CreatePublisher topic]) by reflexivity.
    split.
    { exists []. split; [reflexivity |]. split; [apply prefix_nil |].
      intros other Hin. by apply elem_of_nil in Hin. }
    split; [reflexivity |]. split; [reflexivity |].
    split; [by intros e [= <-] |]. split; [discriminate |].
    intros Hall. rewrite Hall in Hpub. discriminate Hpub.
Qed.

End Listeners.

Lemma listeners_symmetric_witness :
  let self := {| _markets := ["binance"; "kucoin"]%string; _topic := "hbot/bot1/events" |} in
  fst (start_event_listener collaborators_ok self sample_world) = Ok tt /\
  fst (stop_event_listener collaborators_ok self sample_world) = Ok tt /\
  added (new_actions sample_world
           (snd (start_event_listener collaborators_ok self sample_world))) =
    registrations ["binance"; "kucoin"]%string /\
  removed (new_actions sample_world
             (snd (stop_event_listener collaborators_ok self sample_world))) =
    registrations ["binance"; "kucoin"]%string /\
  length (registrations ["binance"; "kucoin"]%string) = 30%nat.
Proof.
  cbv zeta.
  pose proof (listeners_symmetric collaborators_ok
                {| _markets := ["binance"; "kucoin"]%string; _topic := "hbot/bot1/events" |}
                sample_world sample_world) as H.
  cbv zeta in H. destruct H as (_ & _ & Hstart & Hstop & _ & _ & Hall & Hlen).
  destruct (Hall (fun _ _ => eq_refl)) as [H1 H2].
  split; [exact H1 |]. split; [exact H2 |].
  split; [exact (Hstart H1) |]. split; [exact (Hstop H2) |]. exact Hlen.
Defined.

(** A logger that raises stops the start of the listeners after the first
    registration: one listener is registered, the others are not. *)
Example start_stops_at_first_failure :
  start_event_listener logger_fails
    {| _markets := ["binance"; "kucoin"]%string; _topic := "hbot/bot1/events" |}
    sample_world =
    (Raise (mk_exn RuntimeError "logging failed"),
     mk_world (wall_clock sample_world) [] []
       [AddListener "binance" BuyOrderCreated; LogInfo BuyOrderCreated]).
Proof. reflexivity. Qed.

Lemma init_creates_publisher_first_witness :
  fst (__init__ collaborators_ok MainThread "bot$UID" ["binance"%string] sample_world) =
    Ok {| _markets := ["binance"%string]; _topic := "hbot/bot$UID/events" |} /\
  __init__ broker_down MainThread "bot$UID" ["binance"%string] sample_world =
    (Raise (mk_exn RuntimeError "not connected"),
     act (CreatePublisher "hbot/bot$UID/events") sample_world).
Proof.
  split.
  - pose proof (init_creates_publisher_first collaborators_ok "bot$UID"
                  ["binance"%string] sample_world) as H.
    cbv zeta in H. destruct H as (_ & _ & _ & _ & _ & Hall).
    exact (Hall (fun _ _ => eq_refl)).
  - pose proof (init_creates_publisher_first broker_down "bot$UID"
                  ["binance"%string] sample_world) as H.
    cbv zeta in H. destruct H as (_ & _ & _ & Hdown & _).
    exact (Hdown _ eq_refl).
Defined.

Lemma hops_preserve_order_witness :
  let first := mk_callback 107 sample_pubsub (dataclass_instance sample_fields) in
  let second := mk_callback 1 sample_pubsub int_object in
  let fired := fire_all sample_value sample_int_of_str publish_ok
                 [(3%nat, first); (4%nat, second)] sample_world in
  published fired = [] /\
  loop_queue fired = [first; second] /\
  drain sample_value sample_int_of_str publish_ok 2 fired =
    handle_all sample_value sample_int_of_str publish_ok [first; second] sample_world.
Proof.
  cbv zeta.
  exact (hops_preserve_order sample_value sample_int_of_str publish_ok
           [(3%nat, mk_callback 107 sample_pubsub (dataclass_instance sample_fields));
            (4%nat, mk_callback 1 sample_pubsub int_object)]
           sample_world eq_refl).
Defined.

Lemma published_data_has_no_timestamp_witness :
  let m := {| ev_timestamp := 1000; ev_type := "OrderFilled";
              ev_data := delete "timestamp" sample_fields |} in
  (MainThread, m) ∈ published sample_world \/ ev_data m !! "timestamp" = None.
Proof.
  cbv zeta.
  apply (published_data_has_no_timestamp sample_value sample_int_of_str publish_ok
           MainThread 107 sample_pubsub (dataclass_instance sample_fields) sample_world).
  vm_compute. apply list_elem_of_here.
Defined.

Lemma subscribed_events_are_labelled_witness :
  NoDup _market_event_pairs /\
  (forall e, e ∈ _market_event_pairs -> label sample_value (sample_value e) = name e) /\
  (forall tag, label sample_value tag <> "Unknown"%string <->
               exists e, e ∈ _market_event_pairs /\ tag = sample_value e).
Proof.
  apply (subscribed_events_are_labelled sample_value).
  intros a b. destruct a, b; cbn; intros H; first [reflexivity | discriminate H].
Defined.

End ForwarderExtra.

(** * class MQTTGateway, and the topics of an instance *)

Module MQTTGateway.

Definition NODE_NAME : string := "hbot.$UID".
Definition HEARTBEAT_URI : string := "hbot/$UID/hb".

(** [__init__]: the heartbeat topic and the node name of the instance. *)
Definition heartbeat_uri (uid : string) : string := replace HEARTBEAT_URI "$UID" uid.
Definition node_name (uid : string) : string := replace NODE_NAME "$UID" uid.

(** [MQTTLogHandler.__init__]: the default topic replaces an empty one. *)
Definition log_topic_of (uid mqtt_topic : string) : string :=
  if String.eqb mqtt_topic "" then replace MQTTLogHandler.MQTT_URI "$UID" uid
  else mqtt_topic.

(** The topics the components of one gateway use when none is overridden:
    the eight rpc names, then events, notifications, log records and the
    heartbeat. *)
Definition all_topics (uid : string) : list string :=
  (map fst (MQTTCommands._init_commands uid) ++
   [ replace MQTTEventForwarder.EVENT_URI "$UID" uid;
     MQTTNotifier.topic_of uid "";
     log_topic_of uid "";
     heartbeat_uri uid ])%list.

(** What follows the identifier in each of them. *)
Definition suffixes : list string :=
  [ "/start"; "/stop"; "/config"; "/import"; "/status"; "/history";
    "/balance/limit"; "/balance/paper"; "/events"; "/notify"; "/log"; "/hb" ].

End MQTTGateway.

Module TopicsSpec.

Import MQTTGateway.
Local Open Scope list_scope.

Lemma list_ascii_of_string_app (s1 s2 : string) :
  list_ascii_of_string (s1 ++ s2)%string =
    list_ascii_of_string s1 ++ list_ascii_of_string s2.
Proof.
  induction s1 as [| c s1 IH]; [reflexivity |].
  change (c :: list_ascii_of_string (s1 ++ s2)%string =
          c :: (list_ascii_of_string s1 ++ list_ascii_of_string s2)).
  by rewrite IH.
Qed.

(** Strings that are equal read backwards are equal. *)
Lemma reversed_chars_inj (s1 s2 : string) :
  List.rev (list_ascii_of_string s1) = List.rev (list_ascii_of_string s2) -> s1 = s2.
Proof.
  intros H. apply (f_equal (@List.rev ascii)) in H. rewrite !List.rev_involutive in H.
  apply (f_equal string_of_list_ascii) in H.
  by rewrite !string_of_list_ascii_of_string in H.
Qed.

(** No suffix ends with another one: the end of a topic tells its suffix,
    and what precedes it. *)
Lemma suffix_decides (u1 u2 s1 s2 : string) :
  s1 ∈ suffixes -> s2 ∈ suffixes ->
  (u1 ++ s1)%string = (u2 ++ s2)%string ->
  u1 = u2 /\ s1 = s2.
Proof.
  intros H1 H2 Heq.
  apply (f_equal list_ascii_of_string) in Heq.
  rewrite !list_ascii_of_string_app in Heq.
  apply (f_equal (@List.rev ascii)) in Heq. rewrite !List.rev_app_distr in Heq.
  unfold suffixes in H1, H2.
  repeat (apply elem_of_cons in H1 as [-> | H1]);
    try (by apply elem_of_nil in H1);
    repeat (apply elem_of_cons in H2 as [-> | H2]);
    try (by apply elem_of_nil in H2);
    cbn in Heq; try discriminate Heq;
    inversion Heq as [Hrev]; (split; [by apply reversed_chars_inj | reflexivity]).
Qed.

(** The identifier is inserted as it is, once, whatever it contains. *)
Lemma all_topics_shape uid :
  all_topics uid = map (fun s => ("hbot/" ++ uid ++ s)%string) suffixes.
Proof. reflexivity. Qed.

(** X11.  Every topic of an instance is [hbot/], the identifier as it is
    (even if it contains the placeholder [$UID] itself) and a fixed suffix;
    and a topic tells both the instance and the purpose: if the topic at
    position [i] for one identifier is the topic at position [j] for
    another, the positions and the identifiers are equal.  So the twelve
    topics of an instance are pairwise distinct, and two instances with
    different identifiers share no topic. *)
Theorem topics_identify_instance_and_purpose u1 u2 i j t :
  all_topics u1 !! i = Some t ->
  all_topics u2 !! j = Some t ->
  i = j /\ u1 = u2 /\
  exists s, suffixes !! i = Some s /\ t = ("hbot/" ++ u1 ++ s)%string.
Proof.
  rewrite !all_topics_shape, !list_lookup_fmap.
  destruct (suffixes !! i) as [s1 |] eqn:Hi; [| discriminate].
  destruct (suffixes !! j) as [s2 |] eqn:Hj; [| discriminate].
  cbn. intros [= <-] [= Heq].
  destruct (suffix_decides u2 u1 s2 s1) as [-> ->].
  - by eapply list_elem_of_lookup_2.
  - by eapply list_elem_of_lookup_2.
  - exact Heq.
  - split; [| split; [reflexivity | by exists s1]].
    assert (Hnodup : NoDup suffixes).
    { unfold suffixes.
      repeat (apply NoDup_cons; split;
              [ intros Hin;
                repeat (apply elem_of_cons in Hin as [Hin | Hin]; [discriminate |]);
                by apply elem_of_nil in Hin |]).
      apply NoDup_nil_2. }
    exact (NoDup_lookup _ _ _ _ Hnodup Hi Hj).
Qed.

Lemma topics_identify_instance_and_purpose_witness :
  3%nat = 3%nat /\ "bot$UID"%string = "bot$UID"%string /\
  exists s, suffixes !! 3%nat = Some s /\
            "hbot/bot$UID/import"%string = ("hbot/" ++ "bot$UID" ++ s)%string.
Proof.
  exact (topics_identify_instance_and_purpose "bot$UID" "bot$UID" 3 3
           "hbot/bot$UID/import" eq_refl eq_refl).
Defined.

End TopicsSpec.
